(** * Place search client: filename derivation, pagination sessions, CSV export

    A shallow embedding of [app.py] (the served variant, a Flask application
    with a process-wide session store) and [main.py] (the interactive,
    non-served variant), and the properties of the multi-page
    search / session / export flow.

    Modelling conventions.
    - A Python [str] is a [string]; each [ascii] is read as the Unicode code
      point of the same number, so the strings covered are those over code
      points 0..255.  Character classes ([str.isspace], the [\s] and [\w] of
      [re] in its default Unicode mode, [str.lower], [str.upper]) are the
      Python ones restricted to that range.  What decides the location of a
      query is given a second time over all code points (module [Wide]),
      and shown to agree with the first reading on that range.
    - A decoded JSON document is a value of [json]; a Python [dict] with
      string keys is an association list in which the first binding of a key
      is the live one.
    - Exceptions are values of [exn]; code that may raise returns a
      [result].
    - The upstream service is an oracle [api] giving the outcome of the
      n-th request ever sent; the requests sent and the pauses taken are
      recorded in the state, so that "no upstream call was made" is a
      statement about that record.
    - A CSV artifact is the list of rows handed to the [csv] writer, a row
      being the list of its cells; the textual quoting of cells is the
      library's business and is not modelled.  Console output is not
      modelled. *)

From Stdlib Require Import Ascii NArith ZArith Bool.
From stdpp Require Import gmap strings list fin_maps pretty.

Local Open Scope N_scope.

(** ** Python exceptions and results *)

Inductive exn : Type :=
  | AttributeError
  | TypeError
  | IndexError
  | EOFError
  | SystemExit (status : nat)    (* sys.exit(status) *)
  | RequestFailed (e : string).  (* Exception(f"API request failed: {e}") *)

Inductive result (A : Type) : Type :=
  | Ok (a : A)
  | Raise (e : exn).
Arguments Ok {A} a.
Arguments Raise {A} e.

Global Instance result_ret : MRet result := λ A a, Ok a.
Global Instance result_bind : MBind result := λ A B k r,
  match r with
  | Ok a => k a
  | Raise e => Raise e
  end.

(** ** Text: the [str] and [re] operations used by the program *)

Module Text.

Definition code (c : ascii) : N := N_of_ascii c.

Definition in_range (lo hi : N) (c : ascii) : bool :=
  (lo <=? code c) && (code c <=? hi).

(** [str.isspace] on one character, which is also [\s]: TAB..CR, FS..US,
    SPACE, NEL and NBSP. *)
Definition isspace (c : ascii) : bool :=
  in_range 9 13 c || in_range 28 32 c || (code c =? 133) || (code c =? 160).

(** [\w]: alphanumeric characters and the underscore. *)
Definition isword (c : ascii) : bool :=
  in_range 48 57 c || in_range 65 90 c || (code c =? 95) || in_range 97 122 c
  || (code c =? 170) || in_range 178 179 c || (code c =? 181)
  || in_range 185 186 c || in_range 188 190 c
  || in_range 192 214 c || in_range 216 246 c || in_range 248 255 c.

(** [str.lower] on one character. *)
Definition tolower (c : ascii) : ascii :=
  if in_range 65 90 c || in_range 192 214 c || in_range 216 222 c
  then ascii_of_N (code c + 32) else c.

Fixpoint lower (s : string) : string :=
  match s with
  | "" => ""
  | String c s' => String (tolower c) (lower s')
  end.

(** [str.upper].  The sharp s becomes two letters.  The micro sign and the y
    with diaeresis have their capitals above code point 255; they are left in
    place, which no comparison made by the program can observe. *)
Fixpoint upper (s : string) : string :=
  match s with
  | "" => ""
  | String c s' =>
      if code c =? 223 then String "S" (String "S" (upper s'))
      else if in_range 97 122 c || in_range 224 246 c || in_range 248 254 c
      then String (ascii_of_N (code c - 32)) (upper s')
      else String c (upper s')
  end.

Definition is_empty (s : string) : bool :=
  match s with "" => true | _ => false end.

Fixpoint all_space (s : string) : bool :=
  match s with
  | "" => true
  | String c s' => isspace c && all_space s'
  end.

Fixpoint lstrip (s : string) : string :=
  match s with
  | "" => ""
  | String c s' => if isspace c then lstrip s' else s
  end.

Fixpoint rstrip (s : string) : string :=
  match s with
  | "" => ""
  | String c s' => if all_space s then "" else String c (rstrip s')
  end.

(** [s.strip()] *)
Definition strip (s : string) : string := rstrip (lstrip s).

(** [s.split()]: the maximal runs of non-whitespace characters. *)
Fixpoint split (s : string) : list string :=
  match s with
  | "" => []
  | String c s' =>
      if isspace c then split s'
      else match s' with
           | "" => [String c ""]
           | String c' _ =>
               if isspace c' then String c "" :: split s'
               else match split s' with
                    | w :: ws => String c w :: ws
                    | [] => [String c ""]
                    end
           end
  end.

(** [sep in s] *)
Fixpoint contains (sep s : string) : bool :=
  String.prefix sep s ||
  match s with
  | "" => false
  | String _ s' => contains sep s'
  end.

(** [s.split(sep)[0]]: the text before the first occurrence of [sep], the
    whole of [s] when there is none. *)
Fixpoint split_first (sep s : string) : string :=
  if String.prefix sep s then ""
  else match s with
       | "" => ""
       | String c s' => String c (split_first sep s')
       end.

(** [re.sub(r'[^\w\s-]', '', s)] *)
Fixpoint sub_unsafe (s : string) : string :=
  match s with
  | "" => ""
  | String c s' =>
      if isword c || isspace c || Ascii.eqb c "-"
      then String c (sub_unsafe s') else sub_unsafe s'
  end.

(** [re.sub(r'[-\s]+', '_', s)]: [in_run] tells that the preceding character
    belongs to a run that has been replaced already. *)
Fixpoint sub_runs_from (in_run : bool) (s : string) : string :=
  match s with
  | "" => ""
  | String c s' =>
      if Ascii.eqb c "-" || isspace c
      then (if in_run then sub_runs_from true s'
            else String "_" (sub_runs_from true s'))
      else String c (sub_runs_from false s')
  end.

Definition sub_runs (s : string) : string := sub_runs_from false s.

(** *** The pattern [in\s+([^,]+)] under [re.IGNORECASE] *)

Definition is_i (c : ascii) : bool := Ascii.eqb c "i" || Ascii.eqb c "I".
Definition is_n (c : ascii) : bool := Ascii.eqb c "n" || Ascii.eqb c "N".

(** [[^,]+], greedy and last in the pattern: the longest comma-free prefix. *)
Fixpoint take_non_comma (s : string) : string :=
  match s with
  | "" => ""
  | String c s' => if Ascii.eqb c "," then "" else String c (take_non_comma s')
  end.

Definition nonempty (s : string) : option string :=
  if is_empty s then None else Some s.

(** [\s+([^,]+)] anchored at the start of [s], returning group 1.  The
    repetition is greedy: after a whitespace character it first tries to take
    more whitespace, and only when the rest of the pattern cannot match that
    way does it stop and let the group start. *)
Fixpoint ws_then_group (s : string) : option string :=
  match s with
  | "" => None
  | String c r =>
      if isspace c then
        match ws_then_group r with
        | Some g => Some g
        | None => nonempty (take_non_comma r)
        end
      else None
  end.

(** The whole pattern anchored at the start of [s]. *)
Definition match_here (s : string) : option string :=
  match s with
  | String c1 (String c2 r) =>
      if is_i c1 && is_n c2 then ws_then_group r else None
  | _ => None
  end.

(** [re.search(r'in\s+([^,]+)', s, re.IGNORECASE)], as group 1 of the
    leftmost match. *)
Fixpoint re_search (s : string) : option string :=
  match match_here s with
  | Some g => Some g
  | None =>
      match s with
      | "" => None
      | String _ s' => re_search s'
      end
  end.

End Text.

(** ** [generate_filename] (the same text in [app.py] and [main.py]) *)

Import Text.

(** The location before clean-up. *)
Definition city_of (search_query : string) : string :=
  match re_search search_query with
  | Some g => strip g
  | None =>
      let parts := split search_query in
      if decide (2 < length parts)%nat then
        match rev parts with
        | last :: prev :: _ => prev +:+ "_" +:+ last
        | _ => "search_results"
        end
      else "search_results"
  end.

(** The business type before clean-up; [split()[0]] raises on a blank
    query. *)
Definition business_type_of (search_query : string) : result string :=
  if contains " in " (lower search_query)
  then Ok (strip (split_first " in " search_query))
  else match split search_query with
       | w :: _ => Ok w
       | [] => Raise IndexError
       end.

(** The clean-up applied to both components. *)
Definition clean (s : string) : string := sub_runs (strip (sub_unsafe s)).

Definition generate_filename (search_query : string) : result string :=
  let city := city_of search_query in
  business_type ← business_type_of search_query;
  let city := clean city in
  let business_type := clean business_type in
  Ok (city +:+ "_" +:+ business_type +:+ "_results.csv").


(** ** Decoded JSON and the Python operations applied to it *)

#[warnings="-register-all"]
Inductive json : Type :=
  | JNull                               (* None *)
  | JBool (b : bool)
  | JInt (n : Z)
  | JFloat (m e : Z)                    (* the finite float m * 2^e *)
  | JStr (s : string)
  | JArr (l : list json)
  | JObj (d : list (string * json)).

(** [bool(v)] *)
Definition truthy (v : json) : bool :=
  match v with
  | JNull => false
  | JBool b => b
  | JInt n => negb (n =? 0)%Z
  | JFloat m _ => negb (m =? 0)%Z
  | JStr s => negb (is_empty s)
  | JArr l => match l with [] => false | _ => true end
  | JObj d => match d with [] => false | _ => true end
  end.

Fixpoint dict_get (d : list (string * json)) (k : string) : option json :=
  match d with
  | [] => None
  | (k', v) :: d' => if String.eqb k' k then Some v else dict_get d' k
  end.

(** [o.get(k, dflt)]: only a dict has the method. *)
Definition get (o : json) (k : string) (dflt : json) : result json :=
  match o with
  | JObj d => Ok (default dflt (dict_get d k))
  | _ => Raise AttributeError
  end.

(** [k in o] for a string [k] *)
Definition has_key (k : string) (o : json) : result bool :=
  match o with
  | JObj d => Ok (bool_decide (is_Some (dict_get d k)))
  | JArr l =>
      Ok (existsb (λ x, match x with JStr s => String.eqb s k | _ => false end) l)
  | JStr s => Ok (contains k s)
  | _ => Raise TypeError
  end.

(** [o[k]] for a string [k] that is known to be [in o] *)
Definition subscript (o : json) (k : string) : result json :=
  match o with
  | JObj d => Ok (default JNull (dict_get d k))
  | _ => Raise TypeError
  end.

Fixpoint chars (s : string) : list json :=
  match s with
  | "" => []
  | String c s' => JStr (String c "") :: chars s'
  end.

(** [for x in o]: the items visited *)
Definition iterate (o : json) : result (list json) :=
  match o with
  | JArr l => Ok l
  | JStr s => Ok (chars s)
  | JObj d => Ok (map (λ kv, JStr kv.1) d)
  | _ => Raise TypeError
  end.

(** ** [extract_place_data] (the same in [app.py] and [main.py]) *)

Record place_data : Type := {
  p_id : json;
  p_displayName : json;
  p_formattedAddress : json;
  p_primaryType : json;
  p_rating : json;
  p_userRatingCount : json;
  p_businessStatus : json
}.

Definition extract_place (place : json) : result place_data :=
  v_id ← get place "id" (JStr "");
  dn ← get place "displayName" (JObj []);
  v_name ← get dn "text" (JStr "");
  v_addr ← get place "formattedAddress" (JStr "");
  v_type ← get place "primaryType" (JStr "");
  v_rating ← get place "rating" (JStr "");
  v_count ← get place "userRatingCount" (JStr "");
  v_status ← get place "businessStatus" (JStr "");
  Ok {| p_id := v_id; p_displayName := v_name; p_formattedAddress := v_addr;
        p_primaryType := v_type; p_rating := v_rating;
        p_userRatingCount := v_count; p_businessStatus := v_status |}.

Fixpoint extract_each (places : list json) : result (list place_data) :=
  match places with
  | [] => Ok []
  | place :: rest =>
      place_data ← extract_place place;
      places_data ← extract_each rest;
      Ok (place_data :: places_data)
  end.

Definition extract_place_data (api_response : json) : result (list place_data) :=
  present ← has_key "places" api_response;
  if negb present then Ok []
  else
    places ← subscript api_response "places";
    items ← iterate places;
    extract_each items.

(** ** CSV rows *)

Definition row : Type := list json.

Definition fieldnames : list string :=
  ["id"; "displayName"; "formattedAddress"; "primaryType"; "rating";
   "userRatingCount"; "businessStatus"].

(** [writer.writeheader()] writes this row. *)
Definition header_row : row := map JStr fieldnames.

(** The row [DictWriter] writes for one record: its values in the order of
    [fieldnames]. *)
Definition row_of (p : place_data) : row :=
  [p_id p; p_displayName p; p_formattedAddress p; p_primaryType p;
   p_rating p; p_userRatingCount p; p_businessStatus p].

(** [writer.writerows(places_data)] *)
Definition rows_of (places_data : list place_data) : list row :=
  map row_of places_data.

(** ** The upstream service *)

Record payload : Type := {
  textQuery : string;
  pageToken : option json
}.

Inductive api_outcome : Type :=
  | Responded (r : json)      (* a 2xx answer, decoded *)
  | Failed (e : string).      (* a [requests.exceptions.RequestException] *)

(** The request body built by [search_places]. *)
Definition build_payload (text_query : string) (page_token : json) : payload :=
  {| textQuery := text_query;
     pageToken := if truthy page_token then Some page_token else None |}.

(** ** State and exceptions together *)

Definition M (S A : Type) : Type := S → result A * S.

Global Instance M_ret {S} : MRet (M S) := λ A a w, (Ok a, w).
Global Instance M_bind {S} : MBind (M S) := λ A B k m w,
  match m w with
  | (Ok a, w') => k a w'
  | (Raise e, w') => (Raise e, w')
  end.

Definition lift {S A} (r : result A) : M S A := λ w, (r, w).
Definition gets {S A} (f : S → A) : M S A := λ w, (Ok (f w), w).
Definition modify {S} (f : S → S) : M S unit := λ w, (Ok (), f w).

Definition is_nil {A} (l : list A) : bool :=
  match l with [] => true | _ => false end.

(** ** The served variant ([app.py]) *)

Module App.

(** One entry of [session_data]. *)
Record session : Type := {
  query : string;
  all_places : list place_data;
  next_page_token : json;
  page_count : nat;
  filename : string
}.

Definition with_all_places (v : list place_data) (s : session) : session :=
  {| query := query s; all_places := v; next_page_token := next_page_token s;
     page_count := page_count s; filename := filename s |}.

Definition with_next_page_token (v : json) (s : session) : session :=
  {| query := query s; all_places := all_places s; next_page_token := v;
     page_count := page_count s; filename := filename s |}.

Definition with_page_count (v : nat) (s : session) : session :=
  {| query := query s; all_places := all_places s;
     next_page_token := next_page_token s; page_count := v;
     filename := filename s |}.

(** The process: the session store, and the record of what was sent upstream
    and of the pauses taken ([time.sleep]). *)
Record world : Type := {
  session_data : gmap string session;
  requests : list payload;
  sleeps : list nat
}.

Definition initial : world :=
  {| session_data := ∅; requests := []; sleeps := [] |}.

(** What a handler hands to Flask. *)
Inductive response : Type :=
  | JsonError (status : nat) (error : string)
      (* jsonify({'error': error}), status *)
  | ServerError (e : exn)
      (* jsonify({'error': str(e)}), 500 *)
  | SearchResult (session_id : string) (places : list place_data)
      (has_more : bool) (total_count : nat) (file_name : string)
  | MoreResult (places : list place_data) (has_more : bool)
      (total_count : nat) (pages : nat)
  | CsvAttachment (rows : list row) (download_name : string).

Section Handlers.

(** The outcome of the n-th request sent upstream. *)
Variable api : nat → payload → api_outcome.

Definition search_places (text_query : string) (page_token : json)
  : M world json := λ w,
  let payload := build_payload text_query page_token in
  let w' := {| session_data := session_data w;
               requests := requests w ++ [payload];
               sleeps := sleeps w |} in
  match api (length (requests w)) payload with
  | Responded r => (Ok r, w')
  | Failed e => (Raise (RequestFailed e), w')
  end.

(** [time.sleep(secs)] *)
Definition sleep (secs : nat) : M world unit :=
  modify (λ w, {| session_data := session_data w; requests := requests w;
                  sleeps := sleeps w ++ [secs] |}).

(** [session_data[session_id] = s] *)
Definition store (session_id : string) (s : session) : M world unit :=
  modify (λ w, {| session_data := <[session_id := s]> (session_data w);
                  requests := requests w; sleeps := sleeps w |}).

(** [try: ... except Exception as e: return jsonify({'error': str(e)}), 500] *)
Definition try_except (body : M world response) (w : world) : response * world :=
  match body w with
  | (Ok r, w') => (r, w')
  | (Raise e, w') => (ServerError e, w')
  end.

(** [data.get('query', '').strip()] *)
Definition query_of (data : json) : result string :=
  v ← get data "query" (JStr "");
  match v with
  | JStr s => Ok (strip s)
  | _ => Raise AttributeError
  end.

(** [POST /api/search] with the decoded body [data] *)
Definition search (data : json) : world → response * world :=
  try_except (
    search_query ← lift (query_of data);
    if is_empty search_query then
      mret (JsonError 400 "Search query is required")
    else
      api_response ← search_places search_query JNull;
      places_data ← lift (extract_place_data api_response);
      if is_nil places_data then
        mret (JsonError 404 "No places found matching your search criteria")
      else
        sessions ← gets session_data;
        let session_id := "session_" +:+ pretty (size sessions) in
        token ← lift (get api_response "nextPageToken" JNull);
        file_name ← lift (generate_filename search_query);
        store session_id {| query := search_query;
                            all_places := places_data;
                            next_page_token := token;
                            page_count := 1;
                            filename := file_name |};;
        token ← lift (get api_response "nextPageToken" JNull);
        mret (SearchResult session_id places_data (truthy token)
                (length places_data) file_name)).

(** [session_id in session_data], and the entry when it is there: the keys
    are strings, a list or a dict cannot be hashed, anything else is simply
    not a key. *)
Definition find_session (session_id : json) (sessions : gmap string session)
  : result (option (string * session)) :=
  match session_id with
  | JStr k => Ok (pair k <$> sessions !! k)
  | JArr _ | JObj _ => Raise TypeError
  | _ => Ok None
  end.

(** [POST /api/search/more] with the decoded body [data] *)
Definition search_more (data : json) : world → response * world :=
  try_except (
    session_id ← lift (get data "session_id" JNull);
    if negb (truthy session_id) then mret (JsonError 400 "Invalid session")
    else
      sessions ← gets session_data;
      found ← lift (find_session session_id sessions);
      match found with
      | None => mret (JsonError 400 "Invalid session")
      | Some (key, session) =>
          if negb (truthy (next_page_token session)) then
            mret (JsonError 400 "No more results available")
          else if bool_decide (3 ≤ page_count session)%nat then
            mret (JsonError 400 "Maximum results limit reached (60 results)")
          else
            sleep 3;;
            api_response ← search_places (query session) (next_page_token session);
            additional_places ← lift (extract_place_data api_response);
            if negb (is_nil additional_places) then
              (* [session] is the stored dict itself: each assignment below
                 is seen in [session_data] at once *)
              let session := with_all_places
                               (all_places session ++ additional_places) session in
              store key session;;
              token ← lift (get api_response "nextPageToken" JNull);
              let session := with_next_page_token token session in
              store key session;;
              let session := with_page_count (page_count session + 1)%nat session in
              store key session;;
              token ← lift (get api_response "nextPageToken" JNull);
              mret (MoreResult additional_places
                      (truthy token && bool_decide (page_count session < 3)%nat)
                      (length (all_places session)) (page_count session))
            else
              mret (JsonError 404 "No additional places found")
      end).

(** [GET /api/download/<session_id>].  The answer is given by the rows of the
    CSV and the name it is served under; the temporary file that carries
    them is not modelled. *)
Definition download_csv (session_id : string) : world → response * world :=
  try_except (
    sessions ← gets session_data;
    match sessions !! session_id with
    | None => mret (JsonError 400 "Invalid session")
    | Some session =>
        let places_data := all_places session in
        if is_nil places_data then mret (JsonError 400 "No data to download")
        else
          mret (CsvAttachment (header_row :: rows_of places_data)
                  (filename session))
    end).

(** The requests a client can make, and the process serving a sequence of
    them. *)
Inductive request : Type :=
  | PostSearch (data : json)
  | PostSearchMore (data : json)
  | GetDownload (session_id : string).

Definition handle (r : request) : world → response * world :=
  match r with
  | PostSearch data => search data
  | PostSearchMore data => search_more data
  | GetDownload session_id => download_csv session_id
  end.

Fixpoint serve (rs : list request) (w : world) : world :=
  match rs with
  | [] => w
  | r :: rs' => serve rs' (handle r w).2
  end.

End Handlers.

End App.

(** ** The interactive variant ([main.py]) *)

Module Cli.

(** The process: the lines still to be read from the terminal, the files on
    disk (each the list of rows written to it), and the record of what was
    sent upstream and of the pauses taken. *)
Record world : Type := {
  stdin : list string;
  files : gmap string (list row);
  requests : list payload;
  sleeps : list nat
}.

(** The local variables of [main] that the pagination loop updates. *)
Record locals : Type := {
  all_places_data : list place_data;
  next_page_token : json;
  page_count : nat
}.

(** How [main] ends when it returns. *)
Inductive ending : Type :=
  | NothingFound               (* the early [return] after the first page *)
  | Finished (l : locals)      (* the final summary was reached *)
  | Unfinished.                (* the step budget of the model ran out *)

Definition max_pages : nat := 3.

Section Program.

(** The outcome of the n-th request sent upstream, and whether [open]
    succeeds on a path (otherwise it raises [IOError]). *)
Variable api : nat → payload → api_outcome.
Variable writable : string → bool.

Definition set_stdin (v : list string) (w : world) : world :=
  {| stdin := v; files := files w; requests := requests w; sleeps := sleeps w |}.

Definition set_files (v : gmap string (list row)) (w : world) : world :=
  {| stdin := stdin w; files := v; requests := requests w; sleeps := sleeps w |}.

(** [search_places]: a failed request ends the process. *)
Definition search_places (text_query : string) (page_token : json)
  : M world json := λ w,
  let payload := build_payload text_query page_token in
  let w' := {| stdin := stdin w; files := files w;
               requests := requests w ++ [payload]; sleeps := sleeps w |} in
  match api (length (requests w)) payload with
  | Responded r => (Ok r, w')
  | Failed _ => (Raise (SystemExit 1), w')
  end.

Definition sleep (secs : nat) : M world unit :=
  modify (λ w, {| stdin := stdin w; files := files w; requests := requests w;
                  sleeps := sleeps w ++ [secs] |}).

(** [save_to_csv(places_data, filename, append)].  In mode ['a'] the file
    keeps its rows, or is created; in mode ['w'] it is emptied.
    [csvfile.tell() == 0] holds exactly when nothing is in the file at that
    point. *)
Definition save_to_csv (places_data : list place_data) (filename : string)
    (append : bool) : M world unit :=
  if is_nil places_data then mret ()
  else if negb (writable filename) then lift (Raise (SystemExit 1))
  else
    fs ← gets files;
    let csvfile := if append then default [] (fs !! filename) else [] in
    let csvfile :=
      if negb append || is_nil csvfile then csvfile ++ [header_row]
      else csvfile in
    let csvfile := csvfile ++ rows_of places_data in
    modify (set_files (<[filename := csvfile]> fs)).

(** The prompt loop of [ask_user_for_more_results] over the lines typed;
    [input] raises [EOFError] when there is none left. *)
Fixpoint ask_lines (lines : list string) : result bool * list string :=
  match lines with
  | [] => (Raise EOFError, [])
  | line :: rest =>
      let response := upper (strip line) in
      if bool_decide (response ∈ ["Y"; "YES"]) then (Ok true, rest)
      else if bool_decide (response ∈ ["N"; "NO"]) then (Ok false, rest)
      else ask_lines rest
  end.

Definition ask_user_for_more_results : M world bool := λ w,
  let '(r, rest) := ask_lines (stdin w) in (r, set_stdin rest w).

(** The prompt loop of [get_user_search_query]. *)
Fixpoint query_lines (lines : list string) : result string * list string :=
  match lines with
  | [] => (Raise EOFError, [])
  | line :: rest =>
      let search_query := strip line in
      if negb (is_empty search_query) then (Ok search_query, rest)
      else query_lines rest
  end.

Definition get_user_search_query : M world string := λ w,
  let '(r, rest) := query_lines (stdin w) in (r, set_stdin rest w).

(** The [while] loop of [main]; [steps] bounds the number of times its
    condition is evaluated. *)
Fixpoint pagination (steps : nat) (SEARCH_QUERY filename : string)
    (l : locals) : M world (option locals) :=
  match steps with
  | 0%nat => mret None
  | S steps' =>
      if truthy (next_page_token l) && bool_decide (page_count l < max_pages)%nat
      then
        more ← ask_user_for_more_results;
        if (more : bool) then
          sleep 3;;
          additional_response ← search_places SEARCH_QUERY (next_page_token l);
          additional_places_data ← lift (extract_place_data additional_response);
          if negb (is_nil additional_places_data) then
            save_to_csv additional_places_data filename true;;
            token ← lift (get additional_response "nextPageToken" JNull);
            pagination steps' SEARCH_QUERY filename
              {| all_places_data := all_places_data l ++ additional_places_data;
                 next_page_token := token;
                 page_count := page_count l + 1 |}
          else
            pagination steps' SEARCH_QUERY filename
              {| all_places_data := all_places_data l;
                 next_page_token := JNull;
                 page_count := page_count l |}
        else mret (Some l)
      else mret (Some l)
  end.

Definition main : M world ending :=
  SEARCH_QUERY ← get_user_search_query;
  filename ← lift (generate_filename SEARCH_QUERY);
  api_response ← search_places SEARCH_QUERY JNull;
  all_places_data ← lift (extract_place_data api_response);
  if is_nil all_places_data then mret NothingFound
  else
    save_to_csv all_places_data filename false;;
    next_page_token ← lift (get api_response "nextPageToken" JNull);
    l ← pagination (S max_pages) SEARCH_QUERY filename
          {| all_places_data := all_places_data;
             next_page_token := next_page_token;
             page_count := 1 |};
    match l with
    | Some l => mret (Finished l)
    | None => mret Unfinished
    end.

End Program.

End Cli.

(** ** The location over all of Unicode

    The text functions above read a [string] as code points 0..255.  What
    decides the location of a query (the pattern, [strip] and [split])
    depends on three character classes only, each a short list of code
    points, so it is given here for every Python [str]: a list of code
    points.  Under [re.IGNORECASE] the letter i of the pattern matches i, I,
    U+0130 and U+0131; the letter n matches n and N; [\s], [str.strip] and
    [str.split] use the same 29 whitespace characters.  The rest of
    [generate_filename] needs the [\w] class and [str.lower], which are
    tables of the Unicode database; they are parameters. *)

Module Wide.

Definition within (lo hi c : N) : bool := (lo <=? c) && (c <=? hi).

Definition isspace (c : N) : bool :=
  within 9 13 c || within 28 32 c || (c =? 133) || (c =? 160)
  || (c =? 5760) || within 8192 8202 c || (c =? 8232) || (c =? 8233)
  || (c =? 8239) || (c =? 8287) || (c =? 12288).

Definition is_i (c : N) : bool :=
  (c =? 105) || (c =? 73) || (c =? 304) || (c =? 305).

Definition is_n (c : N) : bool := (c =? 110) || (c =? 78).

Definition comma : N := 44.
Definition hyphen : N := 45.
Definition underscore : N := 95.

(** The code points of a [string]. *)
Fixpoint points (s : string) : list N :=
  match s with
  | "" => []
  | String c s' => N_of_ascii c :: points s'
  end.

Fixpoint all_space (s : list N) : bool :=
  match s with
  | [] => true
  | c :: s' => isspace c && all_space s'
  end.

Fixpoint lstrip (s : list N) : list N :=
  match s with
  | [] => []
  | c :: s' => if isspace c then lstrip s' else s
  end.

Fixpoint rstrip (s : list N) : list N :=
  match s with
  | [] => []
  | c :: s' => if all_space s then [] else c :: rstrip s'
  end.

Definition strip (s : list N) : list N := rstrip (lstrip s).

Fixpoint split (s : list N) : list (list N) :=
  match s with
  | [] => []
  | c :: s' =>
      if isspace c then split s'
      else match s' with
           | [] => [[c]]
           | c' :: _ =>
               if isspace c' then [c] :: split s'
               else match split s' with
                    | w :: ws => (c :: w) :: ws
                    | [] => [[c]]
                    end
           end
  end.

Fixpoint take_non_comma (s : list N) : list N :=
  match s with
  | [] => []
  | c :: s' => if c =? comma then [] else c :: take_non_comma s'
  end.

Definition nonempty (s : list N) : option (list N) :=
  match s with [] => None | _ => Some s end.

Fixpoint ws_then_group (s : list N) : option (list N) :=
  match s with
  | [] => None
  | c :: r =>
      if isspace c then
        match ws_then_group r with
        | Some g => Some g
        | None => nonempty (take_non_comma r)
        end
      else None
  end.

Definition match_here (s : list N) : option (list N) :=
  match s with
  | c1 :: c2 :: r => if is_i c1 && is_n c2 then ws_then_group r else None
  | _ => None
  end.

Fixpoint re_search (s : list N) : option (list N) :=
  match match_here s with
  | Some g => Some g
  | None =>
      match s with
      | [] => None
      | _ :: s' => re_search s'
      end
  end.

(** The location before clean-up. *)
Definition city_of (search_query : list N) : list N :=
  match re_search search_query with
  | Some g => strip g
  | None =>
      let parts := split search_query in
      if decide (2 < length parts)%nat then
        match rev parts with
        | last :: prev :: _ => prev ++ [underscore] ++ last
        | _ => points "search_results"
        end
      else points "search_results"
  end.

Fixpoint starts_with (sep s : list N) : bool :=
  match sep, s with
  | [], _ => true
  | a :: sep', b :: s' => (a =? b) && starts_with sep' s'
  | _ :: _, [] => false
  end.

Fixpoint contains (sep s : list N) : bool :=
  starts_with sep s ||
  match s with
  | [] => false
  | _ :: s' => contains sep s'
  end.

Fixpoint split_first (sep s : list N) : list N :=
  if starts_with sep s then []
  else match s with
       | [] => []
       | c :: s' => c :: split_first sep s'
       end.

Section Tables.

(** [\w] on one character, and [str.lower] on a string. *)
Variable isword : N → bool.
Variable lower : list N → list N.

Fixpoint sub_unsafe (s : list N) : list N :=
  match s with
  | [] => []
  | c :: s' =>
      if isword c || isspace c || (c =? hyphen)
      then c :: sub_unsafe s' else sub_unsafe s'
  end.

Fixpoint sub_runs_from (in_run : bool) (s : list N) : list N :=
  match s with
  | [] => []
  | c :: s' =>
      if (c =? hyphen) || isspace c
      then (if in_run then sub_runs_from true s'
            else underscore :: sub_runs_from true s')
      else c :: sub_runs_from false s'
  end.

Definition clean (s : list N) : list N :=
  sub_runs_from false (strip (sub_unsafe s)).

Definition business_type_of (search_query : list N) : result (list N) :=
  if contains (points " in ") (lower search_query)
  then Ok (strip (split_first (points " in ") search_query))
  else match split search_query with
       | w :: _ => Ok w
       | [] => Raise IndexError
       end.

Definition generate_filename (search_query : list N) : result (list N) :=
  let city := city_of search_query in
  business_type ← business_type_of search_query;
  let city := clean city in
  let business_type := clean business_type in
  Ok (city ++ [underscore] ++ business_type ++ points "_results.csv").

End Tables.

(** "in" followed by a whitespace character stands at the head of [s];
    somewhere in [s]. *)
Definition in_space_here (s : list N) : bool :=
  match s with
  | a :: b :: c :: _ => is_i a && is_n b && isspace c
  | _ => false
  end.

Fixpoint has_in_space (s : list N) : bool :=
  in_space_here s ||
  match s with
  | [] => false
  | _ :: s' => has_in_space s'
  end.

Fixpoint comma_free (s : list N) : bool :=
  match s with
  | [] => true
  | c :: s' => negb (c =? comma) && comma_free s'
  end.

(** [s] is at its end or starts with a comma. *)
Definition at_comma_or_end (s : list N) : bool :=
  match s with
  | [] => true
  | c :: _ => c =? comma
  end.

(** What follows [s] is at the start of a word: [s] is empty or ends with a
    whitespace character. *)
Definition ends_word (s : list N) : bool :=
  match last s with
  | None => true
  | Some c => isspace c
  end.

End Wide.

(** ** Sample data used in the examples below *)

Module Sample.

Definition place (name : string) : json :=
  JObj [("id", JStr name);
        ("displayName", JObj [("text", JStr name)]);
        ("rating", JFloat 9 (-1))].

(** An upstream whose first [pages] answers carry one place each and the
    later ones none, and whose first [tokens] answers carry a continuation
    token. *)
Definition upstream (tokens pages : nat) (n : nat) (p : payload) : api_outcome :=
  Responded (JObj (("places", JArr (if bool_decide (n < pages)%nat
                                    then [place (pretty n)] else [])) ::
                   if bool_decide (n < tokens)%nat
                   then [("nextPageToken", JStr "next")] else [])).

Definition start : App.request :=
  App.PostSearch (JObj [("query", JStr "pizza in Rome")]).

Definition more_body : json := JObj [("session_id", JStr "session_0")].

Definition more : App.request := App.PostSearchMore more_body.

(** The record extracted from [place name]. *)
Definition record (name : string) : place_data :=
  {| p_id := JStr name; p_displayName := JStr name;
     p_formattedAddress := JStr ""; p_primaryType := JStr "";
     p_rating := JFloat 9 (-1); p_userRatingCount := JStr "";
     p_businessStatus := JStr "" |}.

(** A request body carrying both a query and a session id. *)
Definition both_body : json :=
  JObj [("query", JStr "pizza in Rome"); ("session_id", JStr "session_0")].

(** The answer of [upstream] number [n] when it carries a place and a
    token, and when it carries neither. *)
Definition full_answer (n : nat) : json :=
  JObj [("places", JArr [place (pretty n)]); ("nextPageToken", JStr "next")].

Definition empty_answer : json := JObj [("places", JArr [])].

Definition empty_disk : Cli.world :=
  {| Cli.stdin := []; Cli.files := ∅; Cli.requests := []; Cli.sleeps := [] |}.

End Sample.

(** ** Vocabulary of the properties *)

(** The state after one more upstream request, and after the pause that
    precedes a continuation request. *)
Definition sent (p : payload) (w : App.world) : App.world :=
  {| App.session_data := App.session_data w;
     App.requests := App.requests w ++ [p];
     App.sleeps := App.sleeps w |}.

Definition paused (w : App.world) : App.world :=
  {| App.session_data := App.session_data w;
     App.requests := App.requests w;
     App.sleeps := App.sleeps w ++ [3%nat] |}.

(** The session after a continuation page [places] with token [token]. *)
Definition advanced (places : list place_data) (token : json) (s : App.session)
  : App.session :=
  {| App.query := App.query s;
     App.all_places := App.all_places s ++ places;
     App.next_page_token := token;
     App.page_count := App.page_count s + 1;
     App.filename := App.filename s |}.

Definition stored (key : string) (s : App.session) (w : App.world) : App.world :=
  {| App.session_data := <[key := s]> (App.session_data w);
     App.requests := App.requests w;
     App.sleeps := App.sleeps w |}.

(** [page] is what was extracted from an upstream response to one of the
    requests [sent]. *)
Definition from_upstream (api : nat → payload → api_outcome)
    (sent : list payload) (page : list place_data) : Prop :=
  ∃ n p r, sent !! n = Some p ∧ api n p = Responded r
           ∧ extract_place_data r = Ok page.

(** [records] is made of [count] pages, in order, each of them non-empty and
    received from upstream, and [count] is between 1 and 3. *)
Definition made_of_pages (api : nat → payload → api_outcome)
    (sent : list payload) (count : nat) (records : list place_data) : Prop :=
  (1 ≤ count ≤ 3)%nat
  ∧ ∃ pages : list (list place_data),
      length pages = count
      ∧ concat pages = records
      ∧ Forall (λ page, page ≠ [] ∧ from_upstream api sent page) pages.

(** Every stored session is within the cap. *)
Definition capped (api : nat → payload → api_outcome) (w : App.world) : Prop :=
  ∀ key s, App.session_data w !! key = Some s →
    made_of_pages api (App.requests w) (App.page_count s) (App.all_places s).

(** The category in the words of the specification: the text of the query
    before the first occurrence of " in " found without regard to case, and
    the first whitespace-separated word when there is no such occurrence. *)
Definition category_spec (search_query : string) : option string :=
  if contains " in " (lower search_query)
  then Some (String.substring 0
               (String.length (split_first " in " (lower search_query)))
               search_query)
  else head (split search_query).

(** ** Vocabulary of the further properties *)

(** Every character of [s] satisfies [p]. *)
Fixpoint all_chars (p : ascii → bool) (s : string) : bool :=
  match s with
  | "" => true
  | String c s' => p c && all_chars p s'
  end.

(** A character that may appear in a derived filename: a word character or
    the dot of the extension. *)
Definition filename_char (c : ascii) : bool := isword c || Ascii.eqb c ".".

(** A place entry from which a record can be extracted: a dict whose
    "displayName", when present, is a dict too. *)
Definition well_formed_place (place : json) : bool :=
  match place with
  | JObj d =>
      match dict_get d "displayName" with
      | None | Some (JObj _) => true
      | Some _ => false
      end
  | _ => false
  end.

(** The id given to the n-th session created. *)
Definition session_key (n : nat) : string := "session_" +:+ pretty n.

(** The ids in use are exactly those of the sessions created so far. *)
Definition dense (w : App.world) : Prop :=
  ∀ key, is_Some (App.session_data w !! key)
         ↔ ∃ i, (i < size (App.session_data w))%nat ∧ key = session_key i.

(** An answer that reports an error. *)
Definition is_error (r : App.response) : Prop :=
  match r with
  | App.JsonError _ _ | App.ServerError _ => True
  | _ => False
  end.

(** The number of requests sent that carried a page token. *)
Definition continuations (sent : list payload) : nat :=
  length (filter (λ p, is_Some (pageToken p)) sent).

(** Every stored session has the filename derived from its query, and its
    query is not blank. *)
Definition named (w : App.world) : Prop :=
  ∀ key s, App.session_data w !! key = Some s →
    all_space (App.query s) = false
    ∧ generate_filename (App.query s) = Ok (App.filename s).

(** [s'] is [s] after more pages: the records of [s] come first, the query
    and the filename are the same, the page count is not smaller. *)
Definition extends (s s' : App.session) : Prop :=
  App.all_places s `prefix_of` App.all_places s'
  ∧ App.query s' = App.query s
  ∧ App.filename s' = App.filename s
  ∧ (App.page_count s ≤ App.page_count s')%nat.

(** The page obtained from an upstream outcome: the records extracted from
    the answer, or the exception that the request or the extraction
    raises. *)
Definition page_of (o : api_outcome) : result (list place_data) :=
  match o with
  | Responded r => extract_place_data r
  | Failed e => Raise (RequestFailed e)
  end.

(** What a line typed at the "more results" prompt answers, if anything. *)
Definition answer (line : string) : option bool :=
  let response := upper (strip line) in
  if bool_decide (response ∈ ["Y"; "YES"]) then Some true
  else if bool_decide (response ∈ ["N"; "NO"]) then Some false
  else None.

(** More sample data: an upstream that cannot be reached, a session with two
    pages and a token, and the state that holds just that session. *)
Definition unreachable_upstream (n : nat) (p : payload) : api_outcome :=
  Failed "timeout".

Definition two_page_session : App.session :=
  {| App.query := "pizza in Rome";
     App.all_places := [Sample.record "a"; Sample.record "b"];
     App.next_page_token := JStr "next";
     App.page_count := 2;
     App.filename := "Rome_pizza_results.csv" |}.

Definition two_page_world : App.world :=
  stored "session_0" two_page_session App.initial.

(** * Properties *)

(** ** Filename derivation on given queries *)

(** C3, as the program has it: the location is everything after "in" up to
    the next comma, so for the query "HVAC contractor in Fuquay-Varina North
    Carolina" it includes the state, and the derived filename is
    "Fuquay_Varina_North_Carolina_HVAC_contractor_results.csv". *)
Theorem generate_filename_hvac_example :
  generate_filename "HVAC contractor in Fuquay-Varina North Carolina"
  = Ok "Fuquay_Varina_North_Carolina_HVAC_contractor_results.csv".
Proof. vm_compute. reflexivity. Qed.

(** The filename stated for that query, without the state, is not the one
    derived. *)
Lemma generate_filename_hvac_differs :
  generate_filename "HVAC contractor in Fuquay-Varina North Carolina"
  ≠ Ok "Fuquay_Varina_HVAC_contractor_results.csv".
Proof. vm_compute. intros H. discriminate H. Qed.

(** ** Facts about extraction and about stripped text *)

Lemma extract_nonempty_object (r : json) (places : list place_data) :
  extract_place_data r = Ok places → places ≠ [] → ∃ d, r = JObj d.
Proof.
  intros H Hne. destruct r as [| | | | s |l|d]; try discriminate H.
  - unfold extract_place_data in H. cbn in H.
    destruct (contains "places" s); cbn in H; [discriminate H|].
    injection H as <-. done.
  - unfold extract_place_data in H. cbn in H.
    destruct (existsb _ l); cbn in H; [discriminate H|].
    injection H as <-. done.
  - by exists d.
Qed.

Lemma all_space_lstrip (s : string) :
  all_space (lstrip s) = true → lstrip s = "".
Proof.
  induction s as [|c s IH]; [done|]. cbn.
  destruct (isspace c) eqn:Hc; [done|].
  cbn. rewrite Hc. done.
Qed.

Lemma rstrip_empty (s : string) : rstrip s = "" → all_space s = true.
Proof.
  destruct s as [|c s]; [done|].
  cbn [rstrip]. by destruct (all_space (String c s)).
Qed.

Lemma all_space_rstrip (s : string) :
  all_space (rstrip s) = true → rstrip s = "".
Proof.
  induction s as [|c s IH]; [done|].
  cbn [rstrip]. destruct (all_space (String c s)) eqn:Hall; [done|].
  intros H. cbn in H. apply andb_true_iff in H as [Hc Hs].
  apply IH, rstrip_empty in Hs.
  cbn in Hall. rewrite Hc, Hs in Hall. discriminate Hall.
Qed.

Lemma split_nil (s : string) : split s = [] → all_space s = true.
Proof.
  induction s as [|c s IH]; [done|]. cbn.
  destruct (isspace c); [exact IH|].
  destruct s as [|c' s]; [done|].
  destruct (isspace c'); [done|].
  destruct (split (String c' s)); done.
Qed.

(** A stripped, non-empty query always yields a filename. *)
Lemma generate_filename_total (s : string) :
  strip s ≠ "" → ∃ name, generate_filename (strip s) = Ok name.
Proof.
  intros Hne. unfold generate_filename, business_type_of.
  destruct (contains " in " (lower (strip s))); cbn; [eauto|].
  destruct (split (strip s)) as [|w ws] eqn:Hsplit; cbn; [|eauto].
  exfalso. apply Hne. unfold strip in *.
  by apply all_space_rstrip, split_nil.
Qed.

(** C5 at the query "Pizza IN Chicago".  The text before the first " in "
    found without regard to case is "Pizza"; the program finds that " in "
    occurs, then cuts the query at " in " in lower case only, of which there
    is none, and takes the whole query as the business type. *)
Theorem business_type_upper_case_in :
  category_spec "Pizza IN Chicago" = Some "Pizza"
  ∧ business_type_of "Pizza IN Chicago" = Ok "Pizza IN Chicago"
  ∧ generate_filename "Pizza IN Chicago"
    = Ok "Chicago_Pizza_IN_Chicago_results.csv".
Proof. vm_compute. done. Qed.

(** ** Appending strings *)

Lemma append_String (c : ascii) (s t : string) :
  String c s +:+ t = String c (s +:+ t).
Proof. reflexivity. Qed.

Lemma append_empty (t : string) : "" +:+ t = t.
Proof. reflexivity. Qed.

Lemma append_assoc (s t u : string) : (s +:+ t) +:+ u = s +:+ (t +:+ u).
Proof.
  induction s as [|c s IH]; [done|]. rewrite !append_String. by rewrite IH.
Qed.

(** ** The location taken from the query *)

Section WideLocation.

Lemma wide_isspace_not_comma (c : N) : Wide.isspace c = true → (c =? Wide.comma) = false.
Proof.
  intros Hc. destruct (N.eqb_spec c Wide.comma) as [->|]; [discriminate Hc|done].
Qed.

Lemma wide_is_i_cases (c : N) :
  Wide.is_i c = true → c = 105 ∨ c = 73 ∨ c = 304 ∨ c = 305.
Proof.
  unfold Wide.is_i. rewrite !orb_true_iff, !N.eqb_eq. tauto.
Qed.

Lemma wide_is_i_not_space (c : N) : Wide.is_i c = true → Wide.isspace c = false.
Proof. intros H. by destruct (wide_is_i_cases c H) as [->|[->|[->| ->]]]. Qed.

Lemma wide_is_i_not_n (c : N) : Wide.is_i c = true → Wide.is_n c = false.
Proof. intros H. by destruct (wide_is_i_cases c H) as [->|[->|[->| ->]]]. Qed.

Lemma wide_take_non_comma_app (x rest : list N) :
  Wide.comma_free x = true → Wide.at_comma_or_end rest = true →
  Wide.take_non_comma (x ++ rest) = x.
Proof.
  intros Hx Hrest. induction x as [|c x IH]; cbn [app Wide.take_non_comma].
  - destruct rest as [|c rest]; [done|]. cbn [Wide.at_comma_or_end] in Hrest.
    cbn [Wide.take_non_comma]. by rewrite Hrest.
  - cbn [Wide.comma_free] in Hx. apply andb_true_iff in Hx as [Hc Hx].
    apply negb_true_iff in Hc. by rewrite Hc, IH.
Qed.

Lemma wide_lstrip_app_space (ws s : list N) :
  Wide.all_space ws = true → Wide.lstrip (ws ++ s) = Wide.lstrip s.
Proof.
  induction ws as [|c ws IH]; [done|]. cbn [Wide.all_space app Wide.lstrip]. intros H.
  apply andb_true_iff in H as [Hc Hws]. rewrite Hc. by apply IH.
Qed.

Lemma wide_comma_free_app_space (ws x : list N) :
  Wide.all_space ws = true → Wide.comma_free x = true → Wide.comma_free (ws ++ x) = true.
Proof.
  induction ws as [|c ws IH]; [done|]. cbn [Wide.all_space app Wide.comma_free].
  intros H Hx. apply andb_true_iff in H as [Hc Hws].
  rewrite (wide_isspace_not_comma c Hc). cbn [negb andb]. by apply IH.
Qed.

Lemma wide_all_space_app_false (pre s : list N) (c : N) :
  Wide.isspace c = false → Wide.all_space (pre ++ c :: s) = false.
Proof.
  intros Hc. induction pre as [|a pre IH]; cbn [app Wide.all_space].
  - by rewrite Hc.
  - rewrite IH. apply andb_false_r.
Qed.

Lemma wide_split_nil (s : list N) : Wide.split s = [] → Wide.all_space s = true.
Proof.
  induction s as [|c s IH]; [done|]. cbn [Wide.split Wide.all_space].
  destruct (Wide.isspace c); [exact IH|].
  destruct s as [|c' s]; [done|].
  destruct (Wide.isspace c'); [done|].
  destruct (Wide.split (c' :: s)); done.
Qed.

(** Whatever the group is, it is what remains of [x] once some of its
    leading whitespace has been given to the repetition. *)
Lemma wide_group_suffix (x rest g : list N) :
  Wide.comma_free x = true → Wide.at_comma_or_end rest = true →
  Wide.ws_then_group (x ++ rest) = Some g → Wide.lstrip g = Wide.lstrip x.
Proof.
  intros Hx Hrest. revert g. induction x as [|c x IH]; intros g Hg.
  - cbn [app] in Hg. destruct rest as [|c rest]; [discriminate Hg|].
    cbn [Wide.ws_then_group] in Hg. cbn [Wide.at_comma_or_end] in Hrest.
    destruct (Wide.isspace c) eqn:Hc; [|discriminate Hg].
    rewrite (wide_isspace_not_comma c Hc) in Hrest. discriminate Hrest.
  - cbn [app Wide.ws_then_group] in Hg. cbn [Wide.comma_free] in Hx.
    apply andb_true_iff in Hx as [_ Hx].
    destruct (Wide.isspace c) eqn:Hc; [|discriminate Hg].
    cbn [Wide.lstrip]. rewrite Hc.
    destruct (Wide.ws_then_group (x ++ rest)) as [g'|] eqn:Hrec.
    + injection Hg as <-. by apply IH.
    + rewrite wide_take_non_comma_app in Hg by done.
      destruct x; [discriminate Hg|]. by injection Hg as <-.
Qed.

Lemma wide_group_found (ws x rest : list N) :
  ws ≠ [] → Wide.all_space ws = true →
  x ≠ [] → Wide.comma_free x = true → Wide.at_comma_or_end rest = true →
  ∃ g, Wide.ws_then_group (ws ++ x ++ rest) = Some g ∧ Wide.lstrip g = Wide.lstrip x.
Proof.
  intros Hws Hall Hx Hfree Hrest.
  destruct ws as [|c ws]; [done|]. cbn [Wide.all_space] in Hall.
  apply andb_true_iff in Hall as [Hc Hall].
  cbn [app Wide.ws_then_group]. rewrite Hc. rewrite app_assoc.
  assert (Hfree' : Wide.comma_free (ws ++ x) = true)
    by by apply wide_comma_free_app_space.
  destruct (Wide.ws_then_group ((ws ++ x) ++ rest)) as [g|] eqn:Hrec.
  - exists g. split; [done|].
    rewrite (wide_group_suffix _ _ _ Hfree' Hrest Hrec).
    by apply wide_lstrip_app_space.
  - rewrite wide_take_non_comma_app by done.
    exists (ws ++ x). split; [|by apply wide_lstrip_app_space].
    destruct ws; [by destruct x|done].
Qed.

Lemma wide_group_not_space (c : N) (s : list N) :
  Wide.isspace c = false → Wide.ws_then_group (c :: s) = None.
Proof. intros Hc. cbn [Wide.ws_then_group]. by rewrite Hc. Qed.

Lemma wide_re_search_leftmost (pre tail g : list N) (c1 c2 : N) :
  Wide.has_in_space pre = false →
  Wide.is_i c1 = true → Wide.is_n c2 = true →
  Wide.ws_then_group tail = Some g →
  Wide.re_search (pre ++ c1 :: c2 :: tail) = Some g.
Proof.
  intros Hpre H1 H2 Hg. induction pre as [|a pre IH].
  - cbn [app Wide.re_search Wide.match_here]. by rewrite H1, H2, Hg.
  - cbn [Wide.has_in_space] in Hpre. apply orb_false_iff in Hpre as [Hhere Hpre].
    cbn [app Wide.re_search].
    assert (Hnone : Wide.match_here (a :: pre ++ c1 :: c2 :: tail) = None).
    { destruct pre as [|b [|c pre]]; cbn [app Wide.match_here].
      - by rewrite (wide_is_i_not_n c1 H1), andb_false_r.
      - destruct (Wide.is_i a && Wide.is_n b); [|done].
        by apply wide_group_not_space, wide_is_i_not_space.
      - cbn [Wide.in_space_here] in Hhere.
        destruct (Wide.is_i a && Wide.is_n b); [|done].
        by apply wide_group_not_space. }
    rewrite Hnone. by apply IH.
Qed.

Lemma wide_no_match (s : list N) : Wide.has_in_space s = false → Wide.re_search s = None.
Proof.
  induction s as [|a s IH]; [done|]. cbn [Wide.has_in_space]. intros H.
  apply orb_false_iff in H as [Hhere H]. cbn [Wide.re_search].
  assert (Hnone : Wide.match_here (a :: s) = None).
  { destruct s as [|b [|c s]]; [done| |].
    - cbn [Wide.match_here]. by destruct (Wide.is_i a && Wide.is_n b).
    - cbn [Wide.match_here]. cbn [Wide.in_space_here] in Hhere.
      destruct (Wide.is_i a && Wide.is_n b); [|done].
      by apply wide_group_not_space. }
  rewrite Hnone. by apply IH.
Qed.

(** On the code Wide.points of a [string] the two readings of the location
    agree. *)

Lemma points_app (s t : string) : Wide.points (s +:+ t) = Wide.points s ++ Wide.points t.
Proof.
  induction s as [|c s IH]; [done|]. rewrite append_String. cbn [Wide.points app].
  by rewrite IH.
Qed.

Lemma points_isspace (c : ascii) : Wide.isspace (N_of_ascii c) = Text.isspace c.
Proof. by destruct c as [[] [] [] [] [] [] [] []]. Qed.

Lemma points_is_i (c : ascii) : Wide.is_i (N_of_ascii c) = Text.is_i c.
Proof. by destruct c as [[] [] [] [] [] [] [] []]. Qed.

Lemma points_is_n (c : ascii) : Wide.is_n (N_of_ascii c) = Text.is_n c.
Proof. by destruct c as [[] [] [] [] [] [] [] []]. Qed.

Lemma points_comma (c : ascii) : (N_of_ascii c =? Wide.comma) = Ascii.eqb c ",".
Proof. by destruct c as [[] [] [] [] [] [] [] []]. Qed.

Lemma points_all_space (s : string) : Wide.all_space (Wide.points s) = Text.all_space s.
Proof.
  induction s as [|c s IH]; [done|]. cbn [Wide.points Wide.all_space Text.all_space].
  by rewrite points_isspace, IH.
Qed.

Lemma points_lstrip (s : string) : Wide.lstrip (Wide.points s) = Wide.points (Text.lstrip s).
Proof.
  induction s as [|c s IH]; [done|]. cbn [Wide.points Wide.lstrip Text.lstrip].
  rewrite points_isspace. by destruct (Text.isspace c).
Qed.

Lemma points_rstrip (s : string) : Wide.rstrip (Wide.points s) = Wide.points (Text.rstrip s).
Proof.
  induction s as [|c s IH]; [done|].
  change (Wide.points (String c s)) with (N_of_ascii c :: Wide.points s).
  cbn [Wide.rstrip Text.rstrip].
  change (N_of_ascii c :: Wide.points s) with (Wide.points (String c s)).
  rewrite points_all_space.
  destruct (Text.all_space (String c s)); [done|]. cbn [Wide.points]. by rewrite IH.
Qed.

Lemma points_strip (s : string) : Wide.strip (Wide.points s) = Wide.points (Text.strip s).
Proof. unfold Wide.strip, Text.strip. by rewrite points_lstrip, points_rstrip. Qed.

Lemma points_split (s : string) :
  Wide.split (Wide.points s) = map Wide.points (Text.split s).
Proof.
  induction s as [|c s IH]; [done|]. cbn [Wide.points Wide.split Text.split].
  rewrite points_isspace. destruct (Text.isspace c); [exact IH|].
  destruct s as [|c' s]; [done|].
  cbn [Wide.points] in *. rewrite points_isspace.
  destruct (Text.isspace c'); [by rewrite IH|].
  rewrite IH. by destruct (Text.split (String c' s)).
Qed.

Lemma points_take_non_comma (s : string) :
  Wide.take_non_comma (Wide.points s) = Wide.points (Text.take_non_comma s).
Proof.
  induction s as [|c s IH]; [done|].
  cbn [Wide.points Wide.take_non_comma Text.take_non_comma].
  rewrite points_comma. destruct (Ascii.eqb c ","); [done|].
  cbn [Wide.points]. by rewrite IH.
Qed.

Lemma points_ws_then_group (s : string) :
  Wide.ws_then_group (Wide.points s) = Wide.points <$> Text.ws_then_group s.
Proof.
  induction s as [|c s IH]; [done|].
  cbn [Wide.points Wide.ws_then_group Text.ws_then_group].
  rewrite points_isspace. destruct (Text.isspace c); [|done].
  rewrite IH. destruct (Text.ws_then_group s); [done|]. cbn.
  rewrite points_take_non_comma. unfold Text.nonempty.
  by destruct (Text.take_non_comma s).
Qed.

Lemma points_re_search (s : string) :
  Wide.re_search (Wide.points s) = Wide.points <$> Text.re_search s.
Proof.
  assert (Hhere : ∀ s, Wide.match_here (Wide.points s) = Wide.points <$> Text.match_here s).
  { intros [|c1 [|c2 r]]; [done..|]. cbn [Wide.points Wide.match_here Text.match_here].
    rewrite points_is_i, points_is_n.
    destruct (Text.is_i c1 && Text.is_n c2); [|done].
    apply points_ws_then_group. }
  induction s as [|c s IH]; [done|].
  change (Wide.re_search (Wide.points (String c s)))
    with (match Wide.match_here (Wide.points (String c s)) with
          | Some g => Some g
          | None => Wide.re_search (Wide.points s)
          end).
  rewrite Hhere. cbn [Text.re_search].
  destruct (Text.match_here (String c s)); [done|]. cbn. exact IH.
Qed.

Lemma points_city_of (search_query : string) :
  Wide.city_of (Wide.points search_query) = Wide.points (city_of search_query).
Proof.
  unfold Wide.city_of, city_of. rewrite points_re_search.
  destruct (Text.re_search search_query) as [g|]; cbn; [apply points_strip|].
  rewrite points_split, length_map.
  destruct (decide (2 < length (Text.split search_query))%nat); [|done].
  rewrite <- map_rev.
  destruct (rev (Text.split search_query)) as [|last [|prev others]]; [done..|].
  cbn. by rewrite !points_app.
Qed.

End WideLocation.

(** C4, as the program has it.  The pattern is looked for from the left, so
    the location follows the leftmost "in": when "in" (its letters matched
    as [re.IGNORECASE] does) stands as a word of its own, followed by
    whitespace, no "in" followed by whitespace occurs before it, and X is
    the comma-free text between that whitespace and the next comma or the
    end of the query, then the location is X trimmed, and the filename
    starts with the cleaned-up form of it.  This holds whatever the tables
    for [\w] and [str.lower] are. *)
Theorem location_after_leftmost_in (isword : N → bool)
    (lower : list N → list N) (pre ws x rest : list N) (c1 c2 : N) :
  Wide.has_in_space pre = false →
  Wide.ends_word pre = true →
  Wide.is_i c1 = true → Wide.is_n c2 = true →
  ws ≠ [] → Wide.all_space ws = true →
  x ≠ [] → Wide.comma_free x = true →
  Wide.at_comma_or_end rest = true →
  let q := pre ++ c1 :: c2 :: ws ++ x ++ rest in
  Wide.city_of q = Wide.strip x
  ∧ ∃ business_type,
      Wide.business_type_of lower q = Ok business_type
      ∧ Wide.generate_filename isword lower q
        = Ok (Wide.clean isword (Wide.strip x) ++ [Wide.underscore]
              ++ Wide.clean isword business_type
              ++ Wide.points "_results.csv").
Proof.
  intros Hpre _ H1 H2 Hws Hall Hx Hfree Hrest q.
  destruct (wide_group_found ws x rest) as (g & Hg & Hstrip); try done.
  assert (Hcity : Wide.city_of q = Wide.strip x).
  { unfold Wide.city_of, q.
    rewrite (wide_re_search_leftmost pre _ g c1 c2) by done.
    unfold Wide.strip. by rewrite Hstrip. }
  split; [exact Hcity|].
  assert (Hbt : ∃ business_type, Wide.business_type_of lower q = Ok business_type).
  { unfold Wide.business_type_of.
    destruct (Wide.contains _ (lower q)); [eauto|].
    destruct (Wide.split q) as [|w l] eqn:Hsplit; [|eauto].
    apply wide_split_nil in Hsplit. unfold q in Hsplit.
    rewrite wide_all_space_app_false in Hsplit by by apply wide_is_i_not_space.
    discriminate Hsplit. }
  destruct Hbt as [business_type Hbt]. exists business_type.
  split; [exact Hbt|].
  unfold Wide.generate_filename. rewrite Hbt, Hcity. reflexivity.
Qed.

(** A query can contain "in X" up to its end and still get another
    location: in "tacos in Austin in Texas" the word "in" occurs twice, and
    the location is what follows the first, not "Texas". *)
Lemma location_not_after_every_in :
  let q := Wide.points "tacos in Austin in Texas" in
  q = Wide.points "tacos in Austin " ++ Wide.points "in" ++ Wide.points " "
      ++ Wide.points "Texas" ++ []
  ∧ Wide.city_of q = Wide.points "Austin in Texas"
  ∧ Wide.city_of q ≠ Wide.strip (Wide.points "Texas")
  ∧ generate_filename "tacos in Austin in Texas"
    = Ok "Austin_in_Texas_tacos_results.csv".
Proof. vm_compute. split_and!; [done | done | discriminate | done]. Qed.

(** ** Refusals of [search_more] *)

Ltac run_handler :=
  unfold App.search_more, App.search, App.download_csv, App.try_except,
    mbind, M_bind, mret, M_ret, lift, gets; cbn.

Section Refusals.

Variable api : nat → payload → api_outcome.

Lemma search_more_no_token (w : App.world) (data : json) (key : string)
    (s : App.session) :
  get data "session_id" JNull = Ok (JStr key) →
  key ≠ "" →
  App.session_data w !! key = Some s →
  truthy (App.next_page_token s) = false →
  App.search_more api data w = (App.JsonError 400 "No more results available", w).
Proof.
  intros Hid Hkey Hs Htok. run_handler.
  rewrite Hid. cbn.
  destruct key as [|c key]; [done|]. cbn.
  rewrite Hs. cbn. rewrite Htok. reflexivity.
Qed.

Lemma search_more_page_limit (w : App.world) (data : json) (key : string)
    (s : App.session) :
  get data "session_id" JNull = Ok (JStr key) →
  key ≠ "" →
  App.session_data w !! key = Some s →
  truthy (App.next_page_token s) = true →
  (3 ≤ App.page_count s)%nat →
  App.search_more api data w
  = (App.JsonError 400 "Maximum results limit reached (60 results)", w).
Proof.
  intros Hid Hkey Hs Htok Hpc. run_handler.
  rewrite Hid. cbn.
  destruct key as [|c key]; [done|]. cbn.
  rewrite Hs. cbn. rewrite Htok. cbn.
  rewrite bool_decide_eq_true_2 by done. reflexivity.
Qed.

(** C2, as the program has it.  [search_more] looks at the continuation token
    first and at the page count second.  On a stored session without a usable
    token it answers "No more results available"; on a stored session that
    has a token and a page count of 3 or more it answers "Maximum results
    limit reached (60 results)".  In both cases the state is returned as it
    was: nothing is added to the record of upstream requests nor to the
    record of pauses. *)
Theorem search_more_refuses (w : App.world) (data : json) (key : string)
    (s : App.session) :
  get data "session_id" JNull = Ok (JStr key) →
  key ≠ "" →
  App.session_data w !! key = Some s →
  (truthy (App.next_page_token s) = false →
     App.search_more api data w
     = (App.JsonError 400 "No more results available", w))
  ∧ (truthy (App.next_page_token s) = true → (3 ≤ App.page_count s)%nat →
     App.search_more api data w
     = (App.JsonError 400 "Maximum results limit reached (60 results)", w)).
Proof.
  intros Hid Hkey Hs. split.
  - intros Htok. eapply search_more_no_token; eauto.
  - intros Htok Hpc. eapply search_more_page_limit; eauto.
Qed.

End Refusals.

(** A session that has reached three pages and whose third answer carried
    no token is refused with "No more results available", not with the
    page-limit message. *)
Lemma search_more_limit_without_token :
  let w := App.serve (Sample.upstream 2 3)
             [Sample.start; Sample.more; Sample.more] App.initial in
  (App.page_count <$> App.session_data w !! "session_0") = Some 3%nat
  ∧ (App.search_more (Sample.upstream 2 3) Sample.more_body w).1
    = App.JsonError 400 "No more results available"
  ∧ (App.search_more (Sample.upstream 2 3) Sample.more_body w).1
    ≠ App.JsonError 400 "Maximum results limit reached (60 results)".
Proof. vm_compute. split_and!; [reflexivity | reflexivity | discriminate]. Qed.


(** ** A page without records *)

Section Pages.

Variable api : nat → payload → api_outcome.

(** C8.  When the records extracted from the first page are none, [search]
    answers with status 404 and the message "No places found matching your
    search criteria", and the session store is as before: the only change to
    the state is the record of the request that was sent. *)
Theorem search_first_page_empty (w : App.world) (data : json) (q : string)
    (r : json) :
  App.query_of data = Ok q →
  q ≠ "" →
  api (length (App.requests w)) (build_payload q JNull) = Responded r →
  extract_place_data r = Ok [] →
  App.search api data w
  = (App.JsonError 404 "No places found matching your search criteria",
     sent (build_payload q JNull) w)
  ∧ App.session_data (App.search api data w).2 = App.session_data w.
Proof.
  intros Hq Hne Hapi Hex.
  assert (Hrun : App.search api data w
    = (App.JsonError 404 "No places found matching your search criteria",
       sent (build_payload q JNull) w)).
  { run_handler. rewrite Hq. cbn.
    destruct q as [|c q]; [done|]. cbn.
    unfold App.search_places. rewrite Hapi. rewrite Hex. reflexivity. }
  split; [exact Hrun|]. rewrite Hrun. reflexivity.
Qed.

(** C9.  When the records extracted from a continuation page are none,
    [search_more] answers with status 404 and the message "No additional
    places found", and the session store is as before; the session still has
    the records, the token and the page count it had. *)
Theorem search_more_page_empty (w : App.world) (data : json) (key : string)
    (s : App.session) (r : json) :
  get data "session_id" JNull = Ok (JStr key) →
  key ≠ "" →
  App.session_data w !! key = Some s →
  truthy (App.next_page_token s) = true →
  (App.page_count s < 3)%nat →
  api (length (App.requests w))
      (build_payload (App.query s) (App.next_page_token s)) = Responded r →
  extract_place_data r = Ok [] →
  let w' := (App.search_more api data w).2 in
  (App.search_more api data w).1 = App.JsonError 404 "No additional places found"
  ∧ App.session_data w' = App.session_data w
  ∧ App.session_data w' !! key = Some s.
Proof.
  intros Hid Hkey Hs Htok Hpc Hapi Hex.
  assert (Hrun : App.search_more api data w
    = (App.JsonError 404 "No additional places found",
       sent (build_payload (App.query s) (App.next_page_token s)) (paused w))).
  { run_handler. rewrite Hid. cbn.
    destruct key as [|c key]; [done|]. cbn.
    rewrite Hs. cbn. rewrite Htok. cbn.
    rewrite bool_decide_eq_false_2 by lia.
    unfold App.sleep, modify, App.search_places. cbn.
    rewrite Hapi. rewrite Hex. reflexivity. }
  cbn zeta. rewrite Hrun. cbn. done.
Qed.

Lemma search_more_success (w : App.world) (data : json) (key : string)
    (s : App.session) (r : json) (places : list place_data) :
  get data "session_id" JNull = Ok (JStr key) →
  key ≠ "" →
  App.session_data w !! key = Some s →
  truthy (App.next_page_token s) = true →
  (App.page_count s < 3)%nat →
  api (length (App.requests w))
      (build_payload (App.query s) (App.next_page_token s)) = Responded r →
  extract_place_data r = Ok places →
  places ≠ [] →
  ∃ token,
    get r "nextPageToken" JNull = Ok token
    ∧ App.search_more api data w
      = (App.MoreResult places
           (truthy token && bool_decide (App.page_count s + 1 < 3)%nat)
           (length (App.all_places s ++ places)) (App.page_count s + 1),
         stored key (advanced places token s)
           (sent (build_payload (App.query s) (App.next_page_token s))
              (paused w))).
Proof.
  intros Hid Hkey Hs Htok Hpc Hapi Hex Hne.
  destruct (extract_nonempty_object r places Hex Hne) as [d ->].
  eexists. split; [reflexivity|].
  run_handler. rewrite Hid. cbn.
  destruct key as [|c key]; [done|]. cbn.
  rewrite Hs. cbn. rewrite Htok. cbn.
  rewrite bool_decide_eq_false_2 by lia.
  unfold App.sleep, modify, App.search_places. cbn.
  rewrite Hapi. rewrite Hex.
  destruct places as [|p places]; [done|]. cbn.
  unfold stored, sent, paused. cbn. rewrite !insert_insert_eq. reflexivity.
Qed.

Lemma search_success (w : App.world) (data : json) (q : string) (r : json)
    (places : list place_data) :
  App.query_of data = Ok q →
  q ≠ "" →
  api (length (App.requests w)) (build_payload q JNull) = Responded r →
  extract_place_data r = Ok places →
  places ≠ [] →
  ∃ token name,
    get r "nextPageToken" JNull = Ok token
    ∧ generate_filename q = Ok name
    ∧ App.search api data w
      = (App.SearchResult ("session_" +:+ pretty (size (App.session_data w)))
           places (truthy token) (length places) name,
         stored ("session_" +:+ pretty (size (App.session_data w)))
           {| App.query := q; App.all_places := places;
              App.next_page_token := token; App.page_count := 1;
              App.filename := name |}
           (sent (build_payload q JNull) w)).
Proof.
  intros Hq Hne Hapi Hex Hpl.
  destruct (extract_nonempty_object r places Hex Hpl) as [d ->].
  assert (Hname : ∃ name, generate_filename q = Ok name).
  { unfold App.query_of in Hq. destruct data; try discriminate Hq.
    cbn in Hq. destruct (default _ _); try discriminate Hq.
    injection Hq as <-. by apply generate_filename_total. }
  destruct Hname as [name Hname].
  exists (default JNull (dict_get d "nextPageToken")), name.
  split; [reflexivity|]. split; [exact Hname|].
  run_handler. rewrite Hq. cbn.
  destruct q as [|c q]; [done|]. cbn.
  unfold App.search_places. rewrite Hapi. rewrite Hex.
  destruct places as [|p places]; [done|]. cbn.
  rewrite Hname. reflexivity.
Qed.

(** C10.  In the answer of a successful [search_more], [has_more] is true
    exactly when the new upstream response carries a usable continuation
    token and the page count after the increment is below 3.  In the answer
    of a successful [search], [has_more] is true exactly when the first
    response carries a usable continuation token; the page count plays no
    part. *)
Theorem has_more_flags (w : App.world) (data : json) (r : json)
    (places : list place_data) :
  extract_place_data r = Ok places →
  places ≠ [] →
  (∀ key s,
     get data "session_id" JNull = Ok (JStr key) →
     key ≠ "" →
     App.session_data w !! key = Some s →
     truthy (App.next_page_token s) = true →
     (App.page_count s < 3)%nat →
     api (length (App.requests w))
         (build_payload (App.query s) (App.next_page_token s)) = Responded r →
     ∃ token has_more total pages,
       get r "nextPageToken" JNull = Ok token
       ∧ (App.search_more api data w).1
         = App.MoreResult places has_more total pages
       ∧ pages = (App.page_count s + 1)%nat
       ∧ (has_more = true ↔ truthy token = true ∧ (pages < 3)%nat))
  ∧ (∀ q,
     App.query_of data = Ok q →
     q ≠ "" →
     api (length (App.requests w)) (build_payload q JNull) = Responded r →
     ∃ token has_more session_id total name,
       get r "nextPageToken" JNull = Ok token
       ∧ (App.search api data w).1
         = App.SearchResult session_id places has_more total name
       ∧ (has_more = true ↔ truthy token = true)).
Proof.
  intros Hex Hne. split.
  - intros key s Hid Hkey Hs Htok Hpc Hapi.
    destruct (search_more_success w data key s r places) as (token & Ht & Hrun);
      try done.
    exists token. eexists _, _, _. split; [exact Ht|].
    rewrite Hrun. split; [reflexivity|]. split; [reflexivity|].
    rewrite andb_true_iff, bool_decide_eq_true. done.
  - intros q Hq Hq' Hapi.
    destruct (search_success w data q r places) as (token & name & Ht & _ & Hrun);
      try done.
    exists token. eexists _, _, _, _. split; [exact Ht|].
    rewrite Hrun. split; [reflexivity|]. done.
Qed.

End Pages.

(** ** Export *)

Ltac run_save :=
  unfold Cli.save_to_csv, mbind, M_bind, mret, M_ret, lift, gets, modify; cbn.

Lemma length_rows_of (places_data : list place_data) :
  length (rows_of places_data) = length places_data.
Proof. unfold rows_of. apply length_map. Qed.

Lemma download_csv_empty (w : App.world) (key : string) (s : App.session) :
  App.session_data w !! key = Some s →
  App.all_places s = [] →
  App.download_csv key w = (App.JsonError 400 "No data to download", w).
Proof. intros Hs Hnil. run_handler. rewrite Hs, Hnil. reflexivity. Qed.

Lemma download_csv_rows (w : App.world) (key : string) (s : App.session) :
  App.session_data w !! key = Some s →
  App.all_places s ≠ [] →
  App.download_csv key w
  = (App.CsvAttachment (header_row :: rows_of (App.all_places s))
       (App.filename s), w).
Proof.
  intros Hs Hne. run_handler. rewrite Hs.
  destruct (App.all_places s); [done|]. reflexivity.
Qed.

Lemma save_to_csv_overwrite (writable : string → bool)
    (places_data : list place_data) (filename : string) (w : Cli.world) :
  places_data ≠ [] →
  writable filename = true →
  Cli.save_to_csv writable places_data filename false w
  = (Ok (), Cli.set_files (<[filename := header_row :: rows_of places_data]>
                             (Cli.files w)) w).
Proof.
  intros Hne Hw. run_save.
  destruct places_data; [done|]. cbn. rewrite Hw. reflexivity.
Qed.

(** C7, as the program has it.  [save_to_csv] returns at once when it is
    given no records: in append mode too it then writes nothing, not even
    the header to a destination that is absent or empty.  Given records, if
    the destination cannot be opened the process exits with status 1 and
    nothing is written; otherwise the rows written before the records are the
    header row when the destination had no rows (it did not exist or was
    empty) and nothing when it had some, and the rows already there are
    kept. *)
Theorem append_header_once (writable : string → bool)
    (places_data : list place_data) (filename : string) (w : Cli.world) :
  let old := default [] (Cli.files w !! filename) in
  let run := Cli.save_to_csv writable places_data filename true w in
  (places_data = [] → run = (Ok (), w))
  ∧ (places_data ≠ [] → writable filename = false →
     run = (Raise (SystemExit 1), w))
  ∧ (places_data ≠ [] → writable filename = true →
     ∃ written,
       run.1 = Ok ()
       ∧ Cli.files run.2 !! filename
         = Some (old ++ written ++ rows_of places_data)
       ∧ (written = [header_row] ↔
            Cli.files w !! filename = None ∨ Cli.files w !! filename = Some [])
       ∧ (written = [] ↔
            ∃ rows, Cli.files w !! filename = Some rows ∧ rows ≠ [])).
Proof.
  cbn zeta.
  unfold Cli.save_to_csv, mbind, M_bind, mret, M_ret, lift, gets, modify.
  split_and!.
  - by intros ->.
  - intros Hne Hw. destruct places_data as [|p ps]; [done|].
    cbn -[rows_of header_row]. by rewrite Hw.
  - intros Hne Hw.
    destruct places_data as [|p ps]; [done|]. cbn -[rows_of header_row].
    rewrite Hw. cbn -[rows_of header_row].
    destruct (Cli.files w !! filename) as [[|r rs]|] eqn:Hf;
      cbn -[rows_of header_row].
    + exists [header_row]. rewrite lookup_insert_eq.
      split_and!; [done | done | naive_solver |].
      split; [done|]. intros (rows & Hrows & Hrne). congruence.
    + exists []. rewrite lookup_insert_eq.
      split_and!; [done | done | |].
      * split; [done|]. intros [H|H]; discriminate H.
      * split; [|done]. intros _. eexists. split; [reflexivity|done].
    + exists [header_row]. rewrite lookup_insert_eq.
      split_and!; [done | done | naive_solver |].
      split; [done|]. intros (rows & Hrows & Hrne). congruence.
Qed.

(** A call in append mode with no records, on a destination that exists and
    is empty, writes no header: the file is as empty after as before. *)
Lemma append_no_records_no_header :
  let w := Cli.set_files {["out.csv" := []]} Sample.empty_disk in
  Cli.files w !! "out.csv" = Some []
  ∧ Cli.save_to_csv (λ _, true) [] "out.csv" true w = (Ok (), w)
  ∧ Cli.files (Cli.save_to_csv (λ _, true) [] "out.csv" true w).2 !! "out.csv"
    = Some [].
Proof. cbn zeta. split_and!; [apply lookup_singleton_eq | done | apply lookup_singleton_eq]. Qed.

(** ** The page cap *)

Section Cap.

Variable api : nat → payload → api_outcome.

Lemma from_upstream_more (sent extra : list payload) (page : list place_data) :
  from_upstream api sent page → from_upstream api (sent ++ extra) page.
Proof.
  intros (n & p & r & Hn & Hr & Hp). exists n, p, r.
  split; [|done]. by apply lookup_app_l_Some.
Qed.

Lemma made_of_pages_more (sent extra : list payload) (count : nat)
    (records : list place_data) :
  made_of_pages api sent count records →
  made_of_pages api (sent ++ extra) count records.
Proof.
  intros (Hc & pages & Hlen & Hcat & Hall). split; [done|].
  exists pages. split_and!; [done..|].
  eapply Forall_impl; [exact Hall|].
  intros page [Hne Hup]. split; [done|]. by apply from_upstream_more.
Qed.

Lemma made_of_pages_first (sent : list payload) (p : payload) (r : json)
    (places : list place_data) :
  api (length sent) p = Responded r →
  extract_place_data r = Ok places →
  places ≠ [] →
  made_of_pages api (sent ++ [p]) 1 places.
Proof.
  intros Hapi Hex Hne. split; [lia|].
  exists [places]. split_and!; [done| cbn; by rewrite app_nil_r |].
  apply Forall_singleton. split; [done|].
  exists (length sent), p, r. split_and!; [|done..].
  by apply list_lookup_middle.
Qed.

Lemma made_of_pages_next (sent : list payload) (p : payload) (r : json)
    (count : nat) (records places : list place_data) :
  made_of_pages api sent count records →
  (count < 3)%nat →
  api (length sent) p = Responded r →
  extract_place_data r = Ok places →
  places ≠ [] →
  made_of_pages api (sent ++ [p]) (count + 1) (records ++ places).
Proof.
  intros (Hc & pages & Hlen & Hcat & Hall) Hlt Hapi Hex Hne.
  split; [lia|].
  exists (pages ++ [places]). split_and!.
  - rewrite length_app. cbn. lia.
  - rewrite concat_app. cbn. by rewrite app_nil_r, Hcat.
  - apply Forall_app. split.
    + eapply Forall_impl; [exact Hall|].
      intros page [Hne' Hup]. split; [done|]. by apply from_upstream_more.
    + apply Forall_singleton. split; [done|].
      exists (length sent), p, r. split_and!; [|done..].
      by apply list_lookup_middle.
Qed.

Lemma capped_sent (p : payload) (w : App.world) :
  capped api w → capped api (sent p w).
Proof.
  intros Hw key s Hs. cbn in *. apply made_of_pages_more. by eapply Hw.
Qed.

Lemma capped_paused (w : App.world) : capped api w → capped api (paused w).
Proof. intros Hw key s Hs. by eapply Hw. Qed.

Lemma capped_stored (key : string) (s : App.session) (w : App.world) :
  capped api w →
  made_of_pages api (App.requests w) (App.page_count s) (App.all_places s) →
  capped api (stored key s w).
Proof.
  intros Hw Hs key' s' Hs'. cbn in *.
  destruct (decide (key = key')) as [->|Hne].
  - rewrite lookup_insert_eq in Hs'. by injection Hs' as <-.
  - rewrite lookup_insert_ne in Hs' by done. by eapply Hw.
Qed.

(** What [search] can do to the state. *)
Lemma search_world (data : json) (w : App.world) :
  let w' := (App.search api data w).2 in
  w' = w
  ∨ (∃ p, w' = sent p w)
  ∨ (∃ q r places token name,
       api (length (App.requests w)) (build_payload q JNull) = Responded r
       ∧ extract_place_data r = Ok places
       ∧ places ≠ []
       ∧ w' = stored ("session_" +:+ pretty (size (App.session_data w)))
                {| App.query := q; App.all_places := places;
                   App.next_page_token := token; App.page_count := 1;
                   App.filename := name |}
                (sent (build_payload q JNull) w)).
Proof.
  cbn zeta. run_handler.
  destruct (App.query_of data) as [q|e]; cbn; [|by left].
  destruct (is_empty q); cbn; [by left|].
  unfold App.search_places.
  destruct (api _ _) as [r|e] eqn:Hapi; cbn; [|right; left; by eexists].
  destruct (extract_place_data r) as [places|e] eqn:Hex; cbn;
    [|right; left; by eexists].
  destruct places as [|pl places]; cbn; [right; left; by eexists|].
  destruct (get r "nextPageToken" JNull) as [token|e]; cbn;
    [|right; left; by eexists].
  destruct (generate_filename q) as [name|e]; cbn; [|right; left; by eexists].
  right. right. exists q, r, (pl :: places), token, name. done.
Qed.

(** What [search_more] can do to the state. *)
Lemma search_more_world (data : json) (w : App.world) :
  let w' := (App.search_more api data w).2 in
  w' = w
  ∨ (∃ p, w' = sent p (paused w))
  ∨ (∃ key s r places token,
       App.session_data w !! key = Some s
       ∧ (App.page_count s < 3)%nat
       ∧ api (length (App.requests w))
           (build_payload (App.query s) (App.next_page_token s)) = Responded r
       ∧ extract_place_data r = Ok places
       ∧ places ≠ []
       ∧ w' = stored key (advanced places token s)
                (sent (build_payload (App.query s) (App.next_page_token s))
                   (paused w))).
Proof.
  cbn zeta. run_handler.
  destruct (get data "session_id" JNull) as [session_id|e]; cbn; [|by left].
  destruct (truthy session_id); cbn; [|by left].
  destruct (App.find_session session_id (App.session_data w))
    as [[[key s]|]|e] eqn:Hfind; cbn; [|by left..].
  assert (Hs : App.session_data w !! key = Some s).
  { destruct session_id; try discriminate Hfind. cbn in Hfind.
    destruct (App.session_data w !! s0) eqn:Hl; cbn in Hfind; [|discriminate Hfind].
    injection Hfind as <- <-. exact Hl. }
  destruct (truthy (App.next_page_token s)); cbn; [|by left].
  case_bool_decide as Hpc; cbn; [by left|].
  unfold App.sleep, modify, App.search_places. cbn.
  destruct (api _ _) as [r|e] eqn:Hapi; cbn; [|right; left; by eexists].
  destruct (extract_place_data r) as [places|e] eqn:Hex; cbn;
    [|right; left; by eexists].
  destruct places as [|pl places]; cbn; [right; left; by eexists|].
  destruct (extract_nonempty_object r (pl :: places) Hex) as [d ->]; [done|].
  cbn. right. right.
  exists key, s, (JObj d), (pl :: places), (default JNull (dict_get d "nextPageToken")).
  split_and!; [done | lia | done | done | done |].
  unfold stored, sent, paused. cbn. by rewrite !insert_insert_eq.
Qed.

Lemma handle_capped (r : App.request) (w : App.world) :
  capped api w → capped api (App.handle api r w).2.
Proof.
  intros Hw. destruct r as [data|data|key]; cbn [App.handle].
  - destruct (search_world data w)
      as [-> | [[p ->] | (q & r & places & token & name & Hapi & Hex & Hne & ->)]].
    + done.
    + by apply capped_sent.
    + apply capped_stored; [by apply capped_sent|].
      cbn. by eapply made_of_pages_first.
  - destruct (search_more_world data w)
      as [-> | [[p ->] | (key & s & r & places & token & Hs & Hpc & Hapi & Hex & Hne & ->)]].
    + done.
    + by apply capped_sent, capped_paused.
    + apply capped_stored; [by apply capped_sent, capped_paused|].
      cbn. eapply made_of_pages_next; [by eapply Hw|done..].
  - run_handler. destruct (App.session_data w !! key) as [s|]; cbn; [|done].
    by destruct (is_nil (App.all_places s)).
Qed.

Lemma serve_capped (rs : list App.request) (w : App.world) :
  capped api w → capped api (App.serve api rs w).
Proof.
  revert w. induction rs as [|r rs IH]; intros w Hw; [done|].
  cbn. by apply IH, handle_capped.
Qed.

Lemma initial_capped : capped api App.initial.
Proof. intros key s Hs. cbn in Hs. by rewrite lookup_empty in Hs. Qed.

End Cap.

Section CliCap.

Variable api : nat → payload → api_outcome.
Variable writable : string → bool.

Ltac run_cli :=
  unfold mbind, M_bind, mret, M_ret, lift, gets, modify; cbn.

Lemma save_to_csv_requests (places_data : list place_data) (filename : string)
    (append : bool) (w : Cli.world) :
  Cli.requests (Cli.save_to_csv writable places_data filename append w).2
  = Cli.requests w.
Proof.
  unfold Cli.save_to_csv. run_cli.
  destruct (is_nil places_data); [done|].
  by destruct (negb (writable filename)).
Qed.

Lemma ask_requests (w : Cli.world) :
  Cli.requests (Cli.ask_user_for_more_results w).2 = Cli.requests w.
Proof.
  unfold Cli.ask_user_for_more_results.
  by destruct (Cli.ask_lines (Cli.stdin w)).
Qed.

Lemma query_requests (w : Cli.world) :
  Cli.requests (Cli.get_user_search_query w).2 = Cli.requests w.
Proof.
  unfold Cli.get_user_search_query.
  by destruct (Cli.query_lines (Cli.stdin w)).
Qed.

(** The loop keeps the records within the cap. *)
Lemma pagination_capped (steps : nat) (q filename : string) :
  ∀ (l : Cli.locals) (w : Cli.world) (l' : Cli.locals) (w' : Cli.world),
    made_of_pages api (Cli.requests w) (Cli.page_count l) (Cli.all_places_data l) →
    Cli.pagination api writable steps q filename l w = (Ok (Some l'), w') →
    made_of_pages api (Cli.requests w') (Cli.page_count l')
      (Cli.all_places_data l').
Proof.
  induction steps as [|steps IH]; intros l w l' w' Hl Hrun; [discriminate Hrun|].
  cbn [Cli.pagination] in Hrun.
  destruct (truthy (Cli.next_page_token l)
            && bool_decide (Cli.page_count l < Cli.max_pages)%nat) eqn:Hcond;
    [|by injection Hrun as <- <-].
  apply andb_true_iff in Hcond as [Htok Hpc]. apply bool_decide_eq_true in Hpc.
  unfold Cli.max_pages in Hpc.
  unfold mbind, M_bind in Hrun.
  pose proof (ask_requests w) as Hask.
  destruct (Cli.ask_user_for_more_results w) as [[more|e] w1];
    [|discriminate Hrun].
  cbn in Hask. destruct more; [|injection Hrun as <- <-; by rewrite Hask].
  unfold Cli.sleep, modify, Cli.search_places in Hrun. cbn in Hrun.
  rewrite Hask in Hrun.
  destruct (api (length (Cli.requests w))
              (build_payload q (Cli.next_page_token l))) as [r|e] eqn:Hapi;
    [|discriminate Hrun].
  unfold lift in Hrun.
  destruct (extract_place_data r) as [places|e] eqn:Hex; [|discriminate Hrun].
  destruct places as [|pl places]; cbn [is_nil negb] in Hrun.
  - eapply IH; [|exact Hrun]. cbn. by apply made_of_pages_more.
  - match type of Hrun with
    | context [Cli.save_to_csv ?wr ?pd ?fn ?ap ?w0] =>
        pose proof (save_to_csv_requests pd fn ap w0) as Hsave;
        destruct (Cli.save_to_csv wr pd fn ap w0) as [[[]|e] w2];
        [|discriminate Hrun]
    end.
    cbn in Hsave.
    destruct (get r "nextPageToken" JNull) as [token|e]; [|discriminate Hrun].
    eapply IH; [|exact Hrun]. cbn. rewrite Hsave.
    by eapply made_of_pages_next.
Qed.

(** The step budget is never what ends the loop, provided it exceeds the
    number of pages still allowed by more than one. *)
Lemma pagination_finishes (steps : nat) (q filename : string) :
  ∀ (l : Cli.locals) (w : Cli.world),
    (Cli.max_pages - Cli.page_count l + 1 < steps)%nat →
    (Cli.pagination api writable steps q filename l w).1 ≠ Ok None.
Proof.
  assert (Hgen : ∀ steps (l : Cli.locals) (w : Cli.world),
    (Cli.max_pages - Cli.page_count l
       + (if truthy (Cli.next_page_token l) then 1 else 0) < steps)%nat →
    (Cli.pagination api writable steps q filename l w).1 ≠ Ok None).
  { clear steps. induction steps as [|steps IH]; intros l w Hsteps; [lia|].
    cbn [Cli.pagination].
    destruct (truthy (Cli.next_page_token l)) eqn:Htok; cbn [andb]; [|done].
    case_bool_decide as Hpc; [|done].
    unfold mbind, M_bind.
    destruct (Cli.ask_user_for_more_results w) as [[more|e] w1]; [|done].
    destruct more; [|done].
    unfold Cli.sleep, modify, Cli.search_places. cbn.
    destruct (api _ _) as [r|e]; [|done].
    unfold lift.
    destruct (extract_place_data r) as [places|e]; [|done].
    destruct places as [|pl places]; cbn [is_nil negb].
    - apply IH. cbn [Cli.page_count Cli.next_page_token truthy]. lia.
    - destruct (Cli.save_to_csv _ _ _ _ _) as [[[]|e] w2]; [|done].
      destruct (get r "nextPageToken" JNull) as [token|e]; [|done].
      apply IH. cbn [Cli.page_count Cli.next_page_token].
      destruct (truthy token); lia. }
  intros l w Hsteps. apply Hgen.
  destruct (truthy (Cli.next_page_token l)); lia.
Qed.

(** [main], when it returns, has either found nothing or gathered records
    within the cap. *)
Lemma main_capped (w : Cli.world) (e : Cli.ending) (w' : Cli.world) :
  Cli.main api writable w = (Ok e, w') →
  e = Cli.NothingFound
  ∨ ∃ l, e = Cli.Finished l
         ∧ made_of_pages api (Cli.requests w') (Cli.page_count l)
             (Cli.all_places_data l).
Proof.
  unfold Cli.main, mbind, M_bind. intros Hrun.
  pose proof (query_requests w) as Hq.
  destruct (Cli.get_user_search_query w) as [[q|e0] w1]; [|discriminate Hrun].
  cbn in Hq. unfold lift in Hrun.
  destruct (generate_filename q) as [filename|e0]; [|discriminate Hrun].
  unfold Cli.search_places in Hrun. rewrite Hq in Hrun.
  destruct (api (length (Cli.requests w)) (build_payload q JNull))
    as [r|e0] eqn:Hapi; [|discriminate Hrun].
  destruct (extract_place_data r) as [places|e0] eqn:Hex; [|discriminate Hrun].
  destruct places as [|pl places]; cbn [is_nil] in Hrun.
  { injection Hrun as <- <-. by left. }
  match type of Hrun with
  | context [Cli.save_to_csv ?wr ?pd ?fn ?ap ?w0] =>
      pose proof (save_to_csv_requests pd fn ap w0) as Hsave;
      destruct (Cli.save_to_csv wr pd fn ap w0) as [[[]|e0] w2];
      [|discriminate Hrun]
  end.
  cbn in Hsave.
  destruct (get r "nextPageToken" JNull) as [token|e0]; [|discriminate Hrun].
  match type of Hrun with
  | context [Cli.pagination ?a ?wr ?st ?qq ?fn ?l0 ?w0] =>
      pose proof (pagination_capped st qq fn l0 w0) as Hloop;
      pose proof (pagination_finishes st qq fn l0 w0) as Hfin;
      destruct (Cli.pagination a wr st qq fn l0 w0) as [[[l|]|e0] w3];
      [| |discriminate Hrun]
  end.
  - injection Hrun as <- <-. right. exists l. split; [done|].
    eapply Hloop; [|done]. cbn. rewrite Hsave.
    by eapply made_of_pages_first.
  - exfalso. apply Hfin; [|done]. cbn. unfold Cli.max_pages. lia.
Qed.

End CliCap.

(** ** The file written by a whole run, and export in both variants *)

Section CliFile.

Variable api : nat → payload → api_outcome.
Variable writable : string → bool.

Lemma ask_files (w : Cli.world) :
  Cli.files (Cli.ask_user_for_more_results w).2 = Cli.files w.
Proof.
  unfold Cli.ask_user_for_more_results.
  by destruct (Cli.ask_lines (Cli.stdin w)).
Qed.

Lemma query_files (w : Cli.world) :
  Cli.files (Cli.get_user_search_query w).2 = Cli.files w.
Proof.
  unfold Cli.get_user_search_query.
  by destruct (Cli.query_lines (Cli.stdin w)).
Qed.

Lemma save_to_csv_first (places_data : list place_data) (filename : string)
    (w w' : Cli.world) :
  places_data ≠ [] →
  Cli.save_to_csv writable places_data filename false w = (Ok (), w') →
  Cli.files w' !! filename = Some (header_row :: rows_of places_data).
Proof.
  intros Hne. unfold Cli.save_to_csv, mbind, M_bind, mret, M_ret, lift, gets, modify.
  destruct places_data as [|p ps]; [done|]. cbn -[rows_of header_row].
  destruct (writable filename); cbn -[rows_of header_row]; [|discriminate].
  intros [= <-]. cbn -[rows_of header_row]. apply lookup_insert_eq.
Qed.

Lemma save_to_csv_appended (places_data : list place_data) (filename : string)
    (w w' : Cli.world) (rows : list row) :
  Cli.files w !! filename = Some (header_row :: rows) →
  Cli.save_to_csv writable places_data filename true w = (Ok (), w') →
  Cli.files w' !! filename = Some (header_row :: rows ++ rows_of places_data).
Proof.
  intros Hf. unfold Cli.save_to_csv, mbind, M_bind, mret, M_ret, lift, gets, modify.
  destruct places_data as [|p ps]; cbn -[rows_of header_row].
  - intros [= <-]. by rewrite app_nil_r.
  - destruct (writable filename); cbn -[rows_of header_row]; [|discriminate].
    rewrite Hf. cbn -[rows_of header_row].
    intros [= <-]. cbn -[rows_of header_row]. apply lookup_insert_eq.
Qed.

Lemma pagination_file (steps : nat) (q filename : string) :
  ∀ (l : Cli.locals) (w : Cli.world) (l' : Cli.locals) (w' : Cli.world),
    Cli.files w !! filename
    = Some (header_row :: rows_of (Cli.all_places_data l)) →
    Cli.pagination api writable steps q filename l w = (Ok (Some l'), w') →
    Cli.files w' !! filename
    = Some (header_row :: rows_of (Cli.all_places_data l')).
Proof.
  induction steps as [|steps IH]; intros l w l' w' Hl Hrun; [discriminate Hrun|].
  cbn [Cli.pagination] in Hrun.
  destruct (truthy (Cli.next_page_token l)
            && bool_decide (Cli.page_count l < Cli.max_pages)%nat);
    [|by injection Hrun as <- <-].
  unfold mbind, M_bind in Hrun.
  pose proof (ask_files w) as Hask.
  destruct (Cli.ask_user_for_more_results w) as [[more|e] w1];
    [|discriminate Hrun].
  cbn in Hask. rewrite <- Hask in Hl.
  destruct more; [|by injection Hrun as <- <-].
  unfold Cli.sleep, modify, Cli.search_places in Hrun. cbn in Hrun.
  destruct (api _ _) as [r|e]; [|discriminate Hrun].
  unfold lift in Hrun.
  destruct (extract_place_data r) as [places|e]; [|discriminate Hrun].
  destruct places as [|pl places]; cbn [is_nil negb] in Hrun.
  - eapply IH; [|exact Hrun]. exact Hl.
  - match type of Hrun with
    | context [Cli.save_to_csv ?wr ?pd ?fn ?ap ?w0] =>
        pose proof (save_to_csv_appended pd fn w0) as Hsave;
        destruct (Cli.save_to_csv wr pd fn ap w0) as [[[]|e] w2];
        [|discriminate Hrun]
    end.
    destruct (get r "nextPageToken" JNull) as [token|e]; [|discriminate Hrun].
    eapply IH; [|exact Hrun]. cbn [Cli.all_places_data].
    unfold rows_of. rewrite map_app. eapply Hsave; [exact Hl|reflexivity].
Qed.

(** When [main] reaches its summary, the file it named holds the header row
    followed by one row for each record gathered, in order. *)
Lemma main_file (w : Cli.world) (l : Cli.locals) (w' : Cli.world) :
  Cli.main api writable w = (Ok (Cli.Finished l), w') →
  ∃ filename,
    Cli.files w' !! filename
    = Some (header_row :: rows_of (Cli.all_places_data l)).
Proof.
  unfold Cli.main, mbind, M_bind. intros Hrun.
  destruct (Cli.get_user_search_query w) as [[q|e0] w1]; [|discriminate Hrun].
  unfold lift in Hrun.
  destruct (generate_filename q) as [filename|e0]; [|discriminate Hrun].
  exists filename.
  unfold Cli.search_places in Hrun.
  destruct (api _ _) as [r|e0]; [|discriminate Hrun].
  destruct (extract_place_data r) as [places|e0]; [|discriminate Hrun].
  destruct places as [|pl places]; cbn [is_nil] in Hrun; [discriminate Hrun|].
  match type of Hrun with
  | context [Cli.save_to_csv ?wr ?pd ?fn ?ap ?w0] =>
      pose proof (save_to_csv_first pd fn w0) as Hsave;
      destruct (Cli.save_to_csv wr pd fn ap w0) as [[[]|e0] w2];
      [|discriminate Hrun]
  end.
  destruct (get r "nextPageToken" JNull) as [token|e0]; [|discriminate Hrun].
  match type of Hrun with
  | context [Cli.pagination ?a ?wr ?st ?qq ?fn ?l0 ?w0] =>
      pose proof (pagination_file st qq fn l0 w0) as Hloop;
      destruct (Cli.pagination a wr st qq fn l0 w0) as [[[l1|]|e0] w3];
      [| discriminate Hrun |discriminate Hrun]
  end.
  injection Hrun as <- <-.
  eapply Hloop; [|reflexivity]. cbn [Cli.all_places_data].
  eapply Hsave; [done|reflexivity].
Qed.

End CliFile.

(** C6, as the program has it.  Served variant: the download of a session
    without records is refused with status 400 and "No data to download"; the
    download of a session with records is a CSV of one header row followed by
    one row per record.  Non-served variant: [save_to_csv] on no records
    writes nothing and returns normally, no error being raised; on some
    records, in overwrite mode and when the file can be opened, it leaves a
    file of one header row followed by one row per record; and when [main]
    reaches its summary, the file it wrote (first page in overwrite mode,
    later pages in append mode) is one header row followed by one row per
    record gathered. *)
Theorem export_rows :
  (∀ (w : App.world) key s,
     App.session_data w !! key = Some s →
     (App.all_places s = [] →
        App.download_csv key w = (App.JsonError 400 "No data to download", w))
     ∧ (App.all_places s ≠ [] →
        ∃ rows,
          App.download_csv key w = (App.CsvAttachment rows (App.filename s), w)
          ∧ head rows = Some header_row
          ∧ length rows = (length (App.all_places s) + 1)%nat))
  ∧ (∀ writable filename append (w : Cli.world),
       Cli.save_to_csv writable [] filename append w = (Ok (), w))
  ∧ (∀ writable places_data filename (w : Cli.world),
       places_data ≠ [] →
       writable filename = true →
       ∃ rows,
         Cli.files (Cli.save_to_csv writable places_data filename false w).2
           !! filename = Some rows
         ∧ (Cli.save_to_csv writable places_data filename false w).1 = Ok ()
         ∧ head rows = Some header_row
         ∧ length rows = (length places_data + 1)%nat)
  ∧ (∀ api writable (w : Cli.world) l w',
       Cli.main api writable w = (Ok (Cli.Finished l), w') →
       ∃ filename rows,
         Cli.files w' !! filename = Some rows
         ∧ head rows = Some header_row
         ∧ length rows = (length (Cli.all_places_data l) + 1)%nat).
Proof.
  split_and!.
  - intros w key s Hs. split.
    + by apply download_csv_empty.
    + intros Hne. eexists. split; [by apply download_csv_rows|].
      split; [reflexivity|]. cbn. rewrite length_rows_of. lia.
  - reflexivity.
  - intros writable places_data filename w Hne Hw.
    rewrite save_to_csv_overwrite by done. cbn.
    eexists. split; [apply lookup_insert_eq|].
    split; [reflexivity|]. split; [reflexivity|].
    cbn. rewrite length_rows_of. lia.
  - intros api writable w l w' Hrun.
    destruct (main_file api writable w l w' Hrun) as [filename Hfile].
    exists filename. eexists. split; [exact Hfile|].
    split; [reflexivity|]. cbn. rewrite length_rows_of. lia.
Qed.

(** An export of no records by [save_to_csv] is a normal return that leaves
    the disk alone, and an export in append mode onto a file that has rows
    leaves more rows than the records exported plus one. *)
Lemma export_rows_as_stated_fails :
  Cli.save_to_csv (λ _, true) [] "out.csv" false Sample.empty_disk
  = (Ok (), Sample.empty_disk)
  ∧ (let w := Cli.set_files
                {["out.csv" := [header_row; row_of (Sample.record "a")]]}
                Sample.empty_disk in
     let w' := (Cli.save_to_csv (λ _, true) [Sample.record "b"]
                  "out.csv" true w).2 in
     (length <$> Cli.files w' !! "out.csv") = Some 3%nat
     ∧ 3%nat ≠ (length [Sample.record "b"] + 1)%nat).
Proof. vm_compute. split_and!; [reflexivity | reflexivity | discriminate]. Qed.

(** C1.  In the served variant, whatever requests are served from the start
    and whatever the upstream answers, every stored session has a page count
    of at most 3 (and at least 1), and its records are the concatenation of
    that many non-empty pages received from upstream.  In the interactive
    variant, whenever [main] returns after a non-empty first page, the same
    holds of its page count and of the records it gathered. *)
Theorem page_count_never_exceeds_cap (api : nat → payload → api_outcome) :
  (∀ (rs : list App.request) key s,
     App.session_data (App.serve api rs App.initial) !! key = Some s →
     (App.page_count s ≤ 3)%nat
     ∧ made_of_pages api (App.requests (App.serve api rs App.initial))
         (App.page_count s) (App.all_places s))
  ∧ (∀ writable (w : Cli.world) e w',
       Cli.main api writable w = (Ok e, w') →
       e = Cli.NothingFound
       ∨ ∃ l, e = Cli.Finished l
              ∧ (Cli.page_count l ≤ 3)%nat
              ∧ made_of_pages api (Cli.requests w') (Cli.page_count l)
                  (Cli.all_places_data l)).
Proof.
  split.
  - intros rs key s Hs.
    pose proof (serve_capped api rs App.initial (initial_capped api) key s Hs) as H.
    split; [|exact H]. destruct H as [Hc _]. lia.
  - intros writable w e w' Hrun.
    destruct (main_capped api writable w e w' Hrun) as [->|(l & -> & H)];
      [by left|].
    right. exists l. split; [done|]. split; [|exact H].
    destruct H as [Hc _]. lia.
Qed.

(** ** Instances *)

Lemma location_after_leftmost_in_witness :
  Wide.city_of (Wide.points "kebab " ++ [304; 78] ++ Wide.points "  Ankara , TR")
  = Wide.points "Ankara".
Proof.
  exact (proj1 (location_after_leftmost_in (λ _, true) (λ s, s)
                  (Wide.points "kebab ") (Wide.points "  ")
                  (Wide.points "Ankara ") (Wide.points ", TR") 304 78
                  eq_refl eq_refl eq_refl eq_refl ltac:(discriminate) eq_refl
                  ltac:(discriminate) eq_refl eq_refl)).
Defined.

Lemma page_count_never_exceeds_cap_witness :
  (∃ s, App.session_data
          (App.serve (Sample.upstream 9 9)
             [Sample.start; Sample.more; Sample.more; Sample.more; Sample.more]
             App.initial) !! "session_0" = Some s
        ∧ (App.page_count s ≤ 3)%nat)
  ∧ (∃ l w', Cli.main (Sample.upstream 9 9) (λ _, true)
               (Cli.set_stdin ["pizza in Rome"; "y"; "yes"; "Y"] Sample.empty_disk)
             = (Ok (Cli.Finished l), w')
             ∧ (Cli.page_count l ≤ 3)%nat).
Proof.
  pose proof (page_count_never_exceeds_cap (Sample.upstream 9 9)) as [Happ Hcli].
  split.
  - assert (Hs : ∃ s, App.session_data
          (App.serve (Sample.upstream 9 9)
             [Sample.start; Sample.more; Sample.more; Sample.more; Sample.more]
             App.initial) !! "session_0" = Some s).
    { vm_compute. eexists. reflexivity. }
    destruct Hs as [s Hs]. exists s. split; [exact Hs|].
    exact (proj1 (Happ _ _ _ Hs)).
  - assert (Hrun : ∃ l w', Cli.main (Sample.upstream 9 9) (λ _, true)
               (Cli.set_stdin ["pizza in Rome"; "y"; "yes"; "Y"] Sample.empty_disk)
             = (Ok (Cli.Finished l), w')).
    { vm_compute. eexists _, _. reflexivity. }
    destruct Hrun as (l & w' & Hrun). exists l, w'. split; [exact Hrun|].
    destruct (Hcli _ _ _ _ Hrun) as [Hno|(l' & Hl & Hpc & _)].
    + discriminate Hno.
    + injection Hl as <-. exact Hpc.
Defined.

Lemma search_more_refuses_witness :
  let w := stored "session_7"
             {| App.query := "pizza in Rome"; App.all_places := [Sample.record "0"];
                App.next_page_token := JNull; App.page_count := 1;
                App.filename := "Rome_pizza_results.csv" |} App.initial in
  App.search_more (Sample.upstream 9 9)
    (JObj [("session_id", JStr "session_7")]) w
  = (App.JsonError 400 "No more results available", w).
Proof.
  intros w.
  exact (proj1 (search_more_refuses (Sample.upstream 9 9) w
                  (JObj [("session_id", JStr "session_7")]) "session_7" _
                  eq_refl ltac:(discriminate) (lookup_insert_eq _ _ _))
           eq_refl).
Defined.

Lemma search_first_page_empty_witness :
  (App.search (Sample.upstream 0 0) Sample.both_body App.initial).1
  = App.JsonError 404 "No places found matching your search criteria"
  ∧ App.session_data
      (App.search (Sample.upstream 0 0) Sample.both_body App.initial).2 = ∅.
Proof.
  destruct (search_first_page_empty (Sample.upstream 0 0) App.initial
              Sample.both_body "pizza in Rome" Sample.empty_answer
              eq_refl ltac:(discriminate) eq_refl eq_refl) as [Hrun Hstore].
  split; [by rewrite Hrun | exact Hstore].
Defined.

Lemma search_more_page_empty_witness :
  let w := stored "session_7"
             {| App.query := "pizza in Rome"; App.all_places := [Sample.record "0"];
                App.next_page_token := JStr "next"; App.page_count := 1;
                App.filename := "Rome_pizza_results.csv" |} App.initial in
  (App.search_more (Sample.upstream 0 0)
     (JObj [("session_id", JStr "session_7")]) w).1
  = App.JsonError 404 "No additional places found".
Proof.
  intros w.
  exact (proj1 (search_more_page_empty (Sample.upstream 0 0) w
                  (JObj [("session_id", JStr "session_7")]) "session_7" _
                  Sample.empty_answer
                  eq_refl ltac:(discriminate) (lookup_insert_eq _ _ _)
                  eq_refl ltac:(cbn; lia) eq_refl eq_refl)).
Defined.

Lemma has_more_flags_witness :
  let w := stored "session_0"
             {| App.query := "pizza in Rome"; App.all_places := [Sample.record "0"];
                App.next_page_token := JStr "next"; App.page_count := 2;
                App.filename := "Rome_pizza_results.csv" |} App.initial in
  (∃ total pages,
     (App.search_more (Sample.upstream 9 9) Sample.both_body w).1
     = App.MoreResult [Sample.record "0"] false total pages)
  ∧ (∃ session_id total name,
     (App.search (Sample.upstream 9 9) Sample.both_body w).1
     = App.SearchResult session_id [Sample.record "0"] true total name).
Proof.
  intros w.
  destruct (has_more_flags (Sample.upstream 9 9) w Sample.both_body
              (Sample.full_answer 0) [Sample.record "0"]
              eq_refl ltac:(discriminate)) as [Hmore Hstart].
  split.
  - destruct (Hmore "session_0" _ eq_refl ltac:(discriminate)
                (lookup_insert_eq _ _ _) eq_refl ltac:(cbn; lia) eq_refl)
      as (token & has_more & total & pages & Htok & Hrun & Hpages & Hiff).
    exists total, pages. rewrite Hrun. f_equal.
    destruct has_more; [|done].
    destruct (proj1 Hiff eq_refl) as [_ Hlt]. cbn in Hpages. lia.
  - destruct (Hstart "pizza in Rome" eq_refl ltac:(discriminate) eq_refl)
      as (token & has_more & session_id & total & name & Htok & Hrun & Hiff).
    exists session_id, total, name. rewrite Hrun. f_equal.
    injection Htok as <-. by apply Hiff.
Defined.

Lemma export_rows_witness :
  let w := stored "session_7"
             {| App.query := "pizza in Rome"; App.all_places := [Sample.record "0"];
                App.next_page_token := JNull; App.page_count := 1;
                App.filename := "Rome_pizza_results.csv" |} App.initial in
  (∃ rows, App.download_csv "session_7" w
           = (App.CsvAttachment rows "Rome_pizza_results.csv", w)
           ∧ length rows = 2%nat)
  ∧ (∃ rows, Cli.files (Cli.save_to_csv (λ _, true) [Sample.record "0"]
                          "out.csv" false Sample.empty_disk).2 !! "out.csv"
             = Some rows
             ∧ length rows = 2%nat).
Proof.
  intros w. destruct export_rows as (Hserved & _ & Hsaved & _). split.
  - destruct (proj2 (Hserved w "session_7" _ (lookup_insert_eq _ _ _))
                ltac:(discriminate)) as (rows & Hrun & _ & Hlen).
    exists rows. split; [exact Hrun | exact Hlen].
  - destruct (Hsaved (λ _, true) [Sample.record "0"] "out.csv" Sample.empty_disk
                ltac:(discriminate) eq_refl) as (rows & Hfile & _ & _ & Hlen).
    exists rows. split; [exact Hfile | exact Hlen].
Defined.

Lemma append_header_once_witness :
  let w := Cli.set_files {["out.csv" := [header_row; row_of (Sample.record "a")]]}
             Sample.empty_disk in
  Cli.files (Cli.save_to_csv (λ _, true) [Sample.record "b"] "out.csv" true w).2
    !! "out.csv"
  = Some [header_row; row_of (Sample.record "a"); row_of (Sample.record "b")].
Proof.
  intros w.
  destruct (proj2 (proj2 (append_header_once (λ _, true) [Sample.record "b"]
                            "out.csv" w))
              ltac:(discriminate) eq_refl) as (written & _ & Hfile & _ & Hnone).
  assert (Hold : Cli.files w !! "out.csv"
                 = Some [header_row; row_of (Sample.record "a")])
    by apply lookup_singleton_eq.
  assert (Hwritten : written = []).
  { apply Hnone. eexists. split; [exact Hold | discriminate]. }
  rewrite Hfile, Hold, Hwritten. reflexivity.
Defined.

(** * Further properties *)

(** ** Derived filenames *)

Lemma isword_not_space (c : ascii) : isword c = true → isspace c = false.
Proof. destruct c as [[] [] [] [] [] [] [] []]; vm_compute; congruence. Qed.

Lemma isword_not_hyphen (c : ascii) : isword c = true → Ascii.eqb c "-" = false.
Proof. destruct c as [[] [] [] [] [] [] [] []]; vm_compute; congruence. Qed.

Lemma isspace_lower_not_i (c : ascii) :
  isspace c = true → Ascii.eqb (tolower c) "i" = false.
Proof. destruct c as [[] [] [] [] [] [] [] []]; vm_compute; congruence. Qed.

Lemma all_chars_app (p : ascii → bool) (s t : string) :
  all_chars p (s +:+ t) = all_chars p s && all_chars p t.
Proof.
  induction s as [|c s IH]; [done|].
  rewrite append_String. cbn [all_chars]. by rewrite IH, andb_assoc.
Qed.

Lemma all_chars_lstrip (p : ascii → bool) (s : string) :
  all_chars p s = true → all_chars p (lstrip s) = true.
Proof.
  induction s as [|c s IH]; [done|]. intros H. cbn [lstrip].
  destruct (isspace c); [|done].
  cbn [all_chars] in H. apply andb_true_iff in H as [_ H]. by apply IH.
Qed.

Lemma all_chars_rstrip (p : ascii → bool) (s : string) :
  all_chars p s = true → all_chars p (rstrip s) = true.
Proof.
  induction s as [|c s IH]; [done|]. intros H. cbn [rstrip].
  destruct (all_space (String c s)); [done|].
  cbn [all_chars] in *. apply andb_true_iff in H as [Hc H].
  by rewrite Hc, IH.
Qed.

Lemma all_chars_sub_unsafe (s : string) :
  all_chars (λ c, isword c || isspace c || Ascii.eqb c "-") (sub_unsafe s) = true.
Proof.
  induction s as [|c s IH]; [done|]. cbn [sub_unsafe].
  destruct (isword c || isspace c || Ascii.eqb c "-") eqn:Hc; [|done].
  cbn [all_chars]. by rewrite Hc, IH.
Qed.

Lemma all_chars_sub_runs (in_run : bool) (s : string) :
  all_chars (λ c, isword c || isspace c || Ascii.eqb c "-") s = true →
  all_chars isword (sub_runs_from in_run s) = true.
Proof.
  revert in_run. induction s as [|c s IH]; intros in_run H; [done|].
  cbn [all_chars] in H. apply andb_true_iff in H as [Hc H].
  cbn [sub_runs_from].
  destruct (Ascii.eqb c "-" || isspace c) eqn:Hsep.
  - destruct in_run; [by apply IH|]. cbn [all_chars]. by rewrite IH.
  - cbn [all_chars]. rewrite IH by done.
    apply orb_false_iff in Hsep as [Hh Hs]. rewrite Hh, Hs in Hc.
    rewrite !orb_false_r in Hc. by rewrite Hc.
Qed.

(** What the clean-up leaves is made of word characters only. *)
Lemma clean_word_chars (s : string) : all_chars isword (clean s) = true.
Proof.
  unfold clean, sub_runs, strip.
  apply all_chars_sub_runs, all_chars_rstrip, all_chars_lstrip,
    all_chars_sub_unsafe.
Qed.

Lemma all_chars_weaken (p p' : ascii → bool) (s : string) :
  (∀ c, p c = true → p' c = true) →
  all_chars p s = true → all_chars p' s = true.
Proof.
  intros Hp. induction s as [|c s IH]; [done|]. cbn [all_chars].
  intros H. apply andb_true_iff in H as [Hc H]. by rewrite (Hp c Hc), IH.
Qed.

(** X1.  Whatever the query, a filename that [generate_filename] returns has
    the form location, underscore, business type, "_results.csv", where both
    components are made of word characters only; so the name holds no
    whitespace, hyphen, comma, slash or other punctuation besides the dot of
    its extension. *)
Theorem generate_filename_safe (search_query name : string) :
  generate_filename search_query = Ok name →
  all_chars filename_char name = true
  ∧ ∃ city business_type,
      name = city +:+ "_" +:+ business_type +:+ "_results.csv"
      ∧ all_chars isword city = true
      ∧ all_chars isword business_type = true.
Proof.
  unfold generate_filename. intros H.
  destruct (business_type_of search_query) as [bt|e]; [|discriminate H].
  cbn in H. injection H as <-.
  assert (Hw : ∀ s, all_chars filename_char (clean s) = true).
  { intros s. eapply all_chars_weaken; [|apply clean_word_chars].
    intros c Hc. unfold filename_char. by rewrite Hc. }
  split.
  - rewrite !all_chars_app, !Hw. reflexivity.
  - exists (clean (city_of search_query)), (clean bt).
    split; [done|]. split; apply clean_word_chars.
Qed.

Lemma generate_filename_safe_witness :
  all_chars filename_char "Rome_St_Peters_best_pizza_results.csv" = true.
Proof.
  exact (proj1 (generate_filename_safe "best-pizza in Rome / St. Peter's, Italy"
                  "Rome_St_Peters_best_pizza_results.csv"
                  ltac:(vm_compute; reflexivity))).
Defined.

Lemma all_space_split (s : string) : all_space s = true → split s = [].
Proof.
  induction s as [|c s IH]; [done|]. cbn [all_space split]. intros H.
  apply andb_true_iff in H as [Hc H]. rewrite Hc. by apply IH.
Qed.

Lemma all_space_no_in (s : string) :
  all_space s = true → contains " in " (lower s) = false.
Proof.
  induction s as [|c s IH]; [done|]. cbn [all_space]. intros H.
  apply andb_true_iff in H as [Hc H].
  cbn [lower contains]. rewrite (IH H), orb_false_r.
  destruct s as [|c' s];
    [cbn [lower String.prefix]; by destruct (ascii_dec " " (tolower c))|].
  cbn [all_space] in H. apply andb_true_iff in H as [Hc' _].
  cbn [lower String.prefix].
  destruct (ascii_dec " " (tolower c)); [|done].
  destruct (ascii_dec "i" (tolower c')) as [Hi|]; [|done].
  pose proof (isspace_lower_not_i c' Hc') as Hne.
  rewrite <- Hi in Hne. discriminate Hne.
Qed.

Lemma generate_filename_blank_raises (search_query : string) :
  all_space search_query = true →
  generate_filename search_query = Raise IndexError.
Proof.
  intros Hall. unfold generate_filename, business_type_of.
  by rewrite all_space_no_in, all_space_split.
Qed.

(** X2.  [generate_filename] raises [IndexError] on a query made of
    whitespace only (the empty query included), and returns a filename on
    every other query. *)
Theorem generate_filename_blank (search_query : string) :
  if all_space search_query
  then generate_filename search_query = Raise IndexError
  else ∃ name, generate_filename search_query = Ok name.
Proof.
  destruct (all_space search_query) eqn:Hall.
  - by apply generate_filename_blank_raises.
  - unfold generate_filename, business_type_of.
    destruct (contains " in " (lower search_query)); cbn; [eauto|].
    destruct (split search_query) as [|w ws] eqn:Hsplit; cbn; [|eauto].
    apply split_nil in Hsplit. congruence.
Qed.

(** X3.  For a query in which no "in" (its letters matched as
    [re.IGNORECASE] does) is followed by whitespace, the location is made of
    the last two whitespace-separated words joined by an underscore when the
    query has more than two words, and is "search_results" when it has two
    words or fewer. *)
Theorem location_without_in (search_query : list N) :
  Wide.has_in_space search_query = false →
  (∀ front prev last,
     Wide.split search_query = front ++ [prev; last] → front ≠ [] →
     Wide.city_of search_query = prev ++ [Wide.underscore] ++ last)
  ∧ ((length (Wide.split search_query) ≤ 2)%nat →
     Wide.city_of search_query = Wide.points "search_results").
Proof.
  intros H. unfold Wide.city_of. rewrite (wide_no_match _ H). split.
  - intros front prev last Hsplit Hfront. rewrite Hsplit.
    rewrite decide_True.
    + by rewrite rev_app_distr.
    + rewrite length_app. destruct front; [done|]. cbn. lia.
  - intros Hlen. by rewrite decide_False by lia.
Qed.

Lemma location_without_in_witness :
  Wide.city_of (Wide.points "best pizza places Chicago")
  = Wide.points "places_Chicago"
  ∧ Wide.city_of (Wide.points "restaurants") = Wide.points "search_results".
Proof.
  split.
  - exact (proj1 (location_without_in (Wide.points "best pizza places Chicago")
                    ltac:(vm_compute; reflexivity))
             [Wide.points "best"; Wide.points "pizza"] (Wide.points "places")
             (Wide.points "Chicago") ltac:(vm_compute; reflexivity)
             ltac:(discriminate)).
  - exact (proj2 (location_without_in (Wide.points "restaurants")
                    ltac:(vm_compute; reflexivity))
             ltac:(vm_compute; lia)).
Defined.

Lemma sub_unsafe_word (s : string) :
  all_chars isword s = true → sub_unsafe s = s.
Proof.
  induction s as [|c s IH]; [done|]. cbn [all_chars sub_unsafe]. intros H.
  apply andb_true_iff in H as [Hc H]. by rewrite Hc, IH.
Qed.

Lemma lstrip_word (s : string) : all_chars isword s = true → lstrip s = s.
Proof.
  destruct s as [|c s]; [done|]. cbn [all_chars lstrip]. intros H.
  apply andb_true_iff in H as [Hc _]. by rewrite (isword_not_space c Hc).
Qed.

Lemma rstrip_word (s : string) : all_chars isword s = true → rstrip s = s.
Proof.
  induction s as [|c s IH]; [done|]. cbn [all_chars rstrip all_space]. intros H.
  apply andb_true_iff in H as [Hc H].
  by rewrite (isword_not_space c Hc), IH.
Qed.

Lemma sub_runs_word (s : string) :
  all_chars isword s = true → sub_runs_from false s = s.
Proof.
  induction s as [|c s IH]; [done|]. cbn [all_chars sub_runs_from]. intros H.
  apply andb_true_iff in H as [Hc H].
  by rewrite (isword_not_space c Hc), (isword_not_hyphen c Hc), IH.
Qed.

(** X4.  The clean-up of a component is idempotent: applied to its own
    result it changes nothing. *)
Theorem clean_idempotent (s : string) : clean (clean s) = clean s.
Proof.
  pose proof (clean_word_chars s) as H. revert H.
  generalize (clean s). intros t H. unfold clean, sub_runs, strip.
  by rewrite sub_unsafe_word, lstrip_word, rstrip_word, sub_runs_word.
Qed.

(** ** Extraction *)

Lemma extract_place_data_array (d : list (string * json)) (l : list json) :
  dict_get d "places" = Some (JArr l) →
  extract_place_data (JObj d) = extract_each l.
Proof.
  intros Hd. unfold extract_place_data. cbn. rewrite Hd. cbn.
  by destruct (extract_each l).
Qed.

Lemma extract_each_pointwise (l : list json) (rs : list place_data) :
  extract_each l = Ok rs ↔ Forall2 (λ place r, extract_place place = Ok r) l rs.
Proof.
  revert rs. induction l as [|place l IH]; intros rs.
  - cbn. split.
    + intros [= <-]. constructor.
    + intros H. by inversion H.
  - cbn [extract_each]. split.
    + intros H. destruct (extract_place place) as [r|e] eqn:Hp; [|discriminate H].
      cbn in H. destruct (extract_each l) as [rs'|e] eqn:Hl; [|discriminate H].
      cbn in H. injection H as <-. constructor; [done|]. by apply IH.
    + intros H. inversion H as [|? r ? rs' Hp Hl]; subst.
      rewrite Hp. cbn. apply IH in Hl. by rewrite Hl.
Qed.

(** X5.  From a response whose "places" is an array, the records extracted
    are, in the order of the array, the records of its entries one by one;
    in particular there are as many records as entries. *)
Theorem extract_in_order (d : list (string * json)) (l : list json)
    (rs : list place_data) :
  dict_get d "places" = Some (JArr l) →
  (extract_place_data (JObj d) = Ok rs
   ↔ Forall2 (λ place r, extract_place place = Ok r) l rs)
  ∧ (extract_place_data (JObj d) = Ok rs → length rs = length l).
Proof.
  intros Hd. rewrite (extract_place_data_array d l Hd). split.
  - apply extract_each_pointwise.
  - intros H. apply extract_each_pointwise in H.
    symmetry. by eapply Forall2_length.
Qed.

Lemma extract_in_order_witness :
  extract_place_data (JObj [("places", JArr [Sample.place "a"; Sample.place "b"])])
  = Ok [Sample.record "a"; Sample.record "b"].
Proof.
  apply (proj1 (extract_in_order
                  [("places", JArr [Sample.place "a"; Sample.place "b"])]
                  [Sample.place "a"; Sample.place "b"]
                  [Sample.record "a"; Sample.record "b"] eq_refl)).
  repeat constructor.
Defined.

Lemma extract_place_well_formed (place : json) :
  if well_formed_place place
  then ∃ r, extract_place place = Ok r
  else extract_place place = Raise AttributeError.
Proof.
  destruct place as [| | | | |l|d]; try reflexivity.
  unfold well_formed_place, extract_place. cbn.
  destruct (dict_get d "displayName") as [[| | | | | |n]|]; cbn; eauto.
Qed.

(** X6.  On a response whose "places" is an array, extraction succeeds when
    every entry is a dict whose "displayName" is absent or a dict, and raises
    [AttributeError] otherwise; missing fields never make it fail. *)
Theorem extract_fails_on_malformed (d : list (string * json)) (l : list json) :
  dict_get d "places" = Some (JArr l) →
  if forallb well_formed_place l
  then ∃ rs, extract_place_data (JObj d) = Ok rs
  else extract_place_data (JObj d) = Raise AttributeError.
Proof.
  intros Hd. rewrite (extract_place_data_array d l Hd). clear Hd.
  induction l as [|place l IH]; cbn [forallb extract_each]; [eauto|].
  pose proof (extract_place_well_formed place) as Hp.
  destruct (well_formed_place place); cbn [andb].
  - destruct Hp as [r ->]. cbn.
    destruct (forallb well_formed_place l).
    + destruct IH as [rs ->]. cbn. eauto.
    + by rewrite IH.
  - by rewrite Hp.
Qed.

Lemma extract_fails_on_malformed_witness :
  extract_place_data
    (JObj [("places", JArr [Sample.place "a"; JObj [("displayName", JStr "b")]])])
  = Raise AttributeError.
Proof.
  exact (extract_fails_on_malformed
           [("places", JArr [Sample.place "a"; JObj [("displayName", JStr "b")]])]
           [Sample.place "a"; JObj [("displayName", JStr "b")]] eq_refl).
Defined.

(** ** What the handlers do, case by case *)

Section Cases.

Variable api : nat → payload → api_outcome.

Lemma search_cases (data : json) (w : App.world) :
  (∃ r, App.search api data w = (r, w) ∧ is_error r)
  ∨ (∃ q r, App.query_of data = Ok q ∧ q ≠ ""
       ∧ App.search api data w = (r, sent (build_payload q JNull) w)
       ∧ is_error r)
  ∨ (∃ q r places token name,
       App.query_of data = Ok q ∧ q ≠ ""
       ∧ api (length (App.requests w)) (build_payload q JNull) = Responded r
       ∧ extract_place_data r = Ok places
       ∧ places ≠ []
       ∧ get r "nextPageToken" JNull = Ok token
       ∧ generate_filename q = Ok name
       ∧ App.search api data w
         = (App.SearchResult (session_key (size (App.session_data w))) places
              (truthy token) (length places) name,
            stored (session_key (size (App.session_data w)))
              {| App.query := q; App.all_places := places;
                 App.next_page_token := token; App.page_count := 1;
                 App.filename := name |}
              (sent (build_payload q JNull) w))).
Proof.
  run_handler.
  destruct (App.query_of data) as [q|e] eqn:Hq; cbn; [|left; by eexists].
  destruct q as [|c q]; cbn; [left; by eexists|].
  unfold App.search_places.
  destruct (api _ _) as [r|e] eqn:Hapi; cbn;
    [|right; left; eexists _, _; by split_and!].
  destruct (extract_place_data r) as [places|e] eqn:Hex; cbn;
    [|right; left; eexists _, _; by split_and!].
  destruct places as [|pl places]; cbn;
    [right; left; eexists _, _; by split_and!|].
  destruct (get r "nextPageToken" JNull) as [token|e] eqn:Htok; cbn;
    [|right; left; eexists _, _; by split_and!].
  destruct (generate_filename (String c q)) as [name|e] eqn:Hname; cbn;
    [|right; left; eexists _, _; by split_and!].
  right. right. exists (String c q), r, (pl :: places), token, name.
  by split_and!.
Qed.

Lemma search_more_cases (data : json) (w : App.world) :
  (∃ r, App.search_more api data w = (r, w) ∧ is_error r)
  ∨ (∃ key s r,
       get data "session_id" JNull = Ok (JStr key)
       ∧ key ≠ ""
       ∧ App.session_data w !! key = Some s
       ∧ truthy (App.next_page_token s) = true
       ∧ (App.page_count s < 3)%nat
       ∧ App.search_more api data w
         = (r, sent (build_payload (App.query s) (App.next_page_token s))
                 (paused w))
       ∧ is_error r)
  ∨ (∃ key s r places token,
       get data "session_id" JNull = Ok (JStr key)
       ∧ key ≠ ""
       ∧ App.session_data w !! key = Some s
       ∧ truthy (App.next_page_token s) = true
       ∧ (App.page_count s < 3)%nat
       ∧ api (length (App.requests w))
           (build_payload (App.query s) (App.next_page_token s)) = Responded r
       ∧ extract_place_data r = Ok places
       ∧ places ≠ []
       ∧ get r "nextPageToken" JNull = Ok token
       ∧ App.search_more api data w
         = (App.MoreResult places
              (truthy token && bool_decide (App.page_count s + 1 < 3)%nat)
              (length (App.all_places s ++ places)) (App.page_count s + 1),
            stored key (advanced places token s)
              (sent (build_payload (App.query s) (App.next_page_token s))
                 (paused w)))).
Proof.
  run_handler.
  destruct (get data "session_id" JNull) as [session_id|e] eqn:Hid; cbn;
    [|left; by eexists].
  destruct (truthy session_id) eqn:Hid'; cbn; [|left; by eexists].
  destruct (App.find_session session_id (App.session_data w))
    as [[[key s]|]|e] eqn:Hfind; cbn; [|left; by eexists..].
  assert (Hs : session_id = JStr key ∧ App.session_data w !! key = Some s).
  { destruct session_id; try discriminate Hfind. cbn in Hfind.
    destruct (App.session_data w !! s0) eqn:Hl; cbn in Hfind; [|discriminate Hfind].
    by injection Hfind as <- <-. }
  destruct Hs as [-> Hs].
  assert (Hkey : key ≠ "") by (intros ->; discriminate Hid').
  destruct (truthy (App.next_page_token s)) eqn:Htok; cbn; [|left; by eexists].
  case_bool_decide as Hpc; cbn; [left; by eexists|].
  unfold App.sleep, modify, App.search_places. cbn.
  destruct (api _ _) as [r|e] eqn:Hapi; cbn;
    [|right; left; eexists _, _, _; split_and!; [done..|lia|done|done]].
  destruct (extract_place_data r) as [places|e] eqn:Hex; cbn;
    [|right; left; eexists _, _, _; split_and!; [done..|lia|done|done]].
  destruct places as [|pl places]; cbn;
    [right; left; eexists _, _, _; split_and!; [done..|lia|done|done]|].
  destruct (extract_nonempty_object r (pl :: places) Hex) as [d ->]; [done|].
  cbn. right. right.
  exists key, s, (JObj d), (pl :: places),
    (default JNull (dict_get d "nextPageToken")).
  split_and!; [done | done | done | done | lia | done | done | done | done |].
  unfold stored, sent, paused. cbn. by rewrite !insert_insert_eq.
Qed.

End Cases.

(** ** Sessions over a whole run *)

Section Runs.

Variable api : nat → payload → api_outcome.

Lemma download_csv_world (key : string) (w : App.world) :
  (App.download_csv key w).2 = w.
Proof.
  run_handler. destruct (App.session_data w !! key) as [s|]; cbn; [|done].
  by destruct (is_nil (App.all_places s)).
Qed.

Lemma serve_app (rs rs' : list App.request) (w : App.world) :
  App.serve api (rs ++ rs') w = App.serve api rs' (App.serve api rs w).
Proof. revert w. induction rs as [|r rs IH]; intros w; [done|]. cbn. apply IH. Qed.

Lemma serve_invariant (I : App.world → Prop) :
  (∀ r w, I w → I (App.handle api r w).2) →
  ∀ rs w, I w → I (App.serve api rs w).
Proof.
  intros Hstep rs. induction rs as [|r rs IH]; intros w Hw; [done|].
  cbn. by apply IH, Hstep.
Qed.

Lemma session_key_inj (i j : nat) : session_key i = session_key j → i = j.
Proof.
  unfold session_key. rewrite !append_String, !append_empty.
  intros H. injection H as H. by apply (inj pretty) in H.
Qed.

Lemma dense_fresh (w : App.world) :
  dense w →
  App.session_data w !! session_key (size (App.session_data w)) = None.
Proof.
  intros Hw. apply eq_None_not_Some. intros Hsome.
  apply Hw in Hsome as (i & Hi & Heq). apply session_key_inj in Heq. lia.
Qed.

Lemma dense_same (w w' : App.world) :
  App.session_data w' = App.session_data w → dense w → dense w'.
Proof. unfold dense. by intros ->. Qed.

Lemma dense_stored_new (s : App.session) (w : App.world) :
  dense w → dense (stored (session_key (size (App.session_data w))) s w).
Proof.
  intros Hw key. pose proof (dense_fresh w Hw) as Hfresh. cbn.
  rewrite map_size_insert_None by done.
  rewrite lookup_insert_is_Some. split.
  - intros [<-|[_ Hsome]].
    + exists (size (App.session_data w)). split; [lia|done].
    + apply Hw in Hsome as (i & Hi & ->). exists i. split; [lia|done].
  - intros (i & Hi & ->).
    destruct (decide (i = size (App.session_data w))) as [->|Hne]; [by left|].
    right. split.
    + intros Heq. by apply session_key_inj in Heq.
    + apply Hw. exists i. split; [lia|done].
Qed.

Lemma dense_stored_old (key : string) (s s' : App.session) (w : App.world) :
  App.session_data w !! key = Some s → dense w → dense (stored key s' w).
Proof.
  intros Hs Hw key'. cbn.
  rewrite map_size_insert_Some by done.
  rewrite lookup_insert_is_Some. rewrite <- (Hw key'). split.
  - intros [<-|[_ H]]; [by rewrite Hs|done].
  - intros H. destruct (decide (key = key')); [by left|by right].
Qed.

Lemma handle_dense (r : App.request) (w : App.world) :
  dense w → dense (App.handle api r w).2.
Proof.
  intros Hw. destruct r as [data|data|key]; cbn [App.handle].
  - destruct (search_cases api data w)
      as [(r & -> & _) | [(q & r & _ & _ & -> & _)
          | (q & r & places & token & name & _ & _ & _ & _ & _ & _ & _ & ->)]];
      cbn [snd]; [done| by eapply dense_same |].
    apply (dense_stored_new _ (sent (build_payload q JNull) w)).
    by eapply dense_same.
  - destruct (search_more_cases api data w)
      as [(r & -> & _) | [(key & s & r & _ & _ & _ & _ & _ & -> & _)
          | (key & s & r & places & token & _ & _ & Hs & _ & _ & _ & _ & _ & _ & ->)]];
      cbn [snd]; [done| by eapply dense_same |].
    eapply dense_stored_old; [exact Hs|]. by eapply dense_same.
  - by rewrite download_csv_world.
Qed.

Lemma initial_dense : dense App.initial.
Proof.
  intros key. cbn. rewrite lookup_empty, map_size_empty. split.
  - by intros [? ?].
  - intros (i & Hi & _). lia.
Qed.

Lemma serve_dense (rs : list App.request) : dense (App.serve api rs App.initial).
Proof. apply serve_invariant; [apply handle_dense | apply initial_dense]. Qed.

(** X7.  At any point of a run, a successful [search] returns an id that
    was not in use, adds exactly one session to the store, and leaves every
    session that was there as it was. *)
Theorem search_creates_fresh_session (rs : list App.request) (data : json)
    (session_id : string) (places : list place_data) (has_more : bool)
    (total : nat) (name : string) :
  let w := App.serve api rs App.initial in
  (App.search api data w).1
  = App.SearchResult session_id places has_more total name →
  App.session_data w !! session_id = None
  ∧ size (App.session_data (App.search api data w).2)
    = S (size (App.session_data w))
  ∧ (∀ key s, App.session_data w !! key = Some s →
       App.session_data (App.search api data w).2 !! key = Some s)
  ∧ (∃ s, App.session_data (App.search api data w).2 !! session_id = Some s
          ∧ App.all_places s = places ∧ App.page_count s = 1%nat).
Proof.
  intros w Hrun. pose proof (serve_dense rs) as Hw. fold w in Hw.
  pose proof (dense_fresh w Hw) as Hfresh.
  destruct (search_cases api data w)
    as [(r & Heq & Herr) | [(q & r & _ & _ & Heq & Herr)
        | (q & r & places' & token & name' & _ & _ & _ & _ & _ & _ & _ & Heq)]];
    rewrite Heq in Hrun |- *; cbn [fst snd] in *.
  - subst r. destruct Herr.
  - subst r. destruct Herr.
  - injection Hrun as <- <- _ _ _. cbn.
    split; [done|]. split; [by rewrite map_size_insert_None|].
    split.
    + intros key s Hs. rewrite lookup_insert_ne; [done|]. congruence.
    + eexists. split; [apply lookup_insert_eq|]. done.
Qed.

Lemma extends_refl (s : App.session) : extends s s.
Proof. by split_and!. Qed.

Lemma extends_trans (s1 s2 s3 : App.session) :
  extends s1 s2 → extends s2 s3 → extends s1 s3.
Proof.
  intros (Ha & Hq & Hf & Hp) (Ha' & Hq' & Hf' & Hp').
  split_and!; [by etrans | congruence | congruence | lia].
Qed.

Lemma handle_extends (r : App.request) (w : App.world) (key : string)
    (s : App.session) :
  dense w →
  App.session_data w !! key = Some s →
  ∃ s', App.session_data (App.handle api r w).2 !! key = Some s' ∧ extends s s'.
Proof.
  intros Hw Hs. destruct r as [data|data|key']; cbn [App.handle].
  - destruct (search_cases api data w)
      as [(r & -> & _) | [(q & r & _ & _ & -> & _)
          | (q & r & places & token & name & _ & _ & _ & _ & _ & _ & _ & ->)]];
      cbn [snd]; [exists s; split; [done|apply extends_refl]..|].
    exists s. split; [|apply extends_refl]. cbn.
    rewrite lookup_insert_ne; [done|].
    pose proof (dense_fresh w Hw). congruence.
  - destruct (search_more_cases api data w)
      as [(r & -> & _) | [(k & s0 & r & _ & _ & _ & _ & _ & -> & _)
          | (k & s0 & r & places & token & _ & _ & Hs0 & _ & _ & _ & _ & _ & _ & ->)]];
      cbn [snd]; [exists s; split; [done|apply extends_refl]..|].
    cbn. destruct (decide (k = key)) as [->|Hne].
    + rewrite lookup_insert_eq. eexists. split; [done|].
      rewrite Hs in Hs0. injection Hs0 as <-.
      split_and!; cbn; [by apply prefix_app_r | done | done | lia].
    + rewrite lookup_insert_ne by done.
      exists s. split; [done|apply extends_refl].
  - rewrite download_csv_world. exists s. split; [done|apply extends_refl].
Qed.

Lemma serve_extends (rs : list App.request) :
  ∀ (w : App.world) (key : string) (s : App.session),
    dense w →
    App.session_data w !! key = Some s →
    ∃ s', App.session_data (App.serve api rs w) !! key = Some s' ∧ extends s s'.
Proof.
  induction rs as [|r rs IH]; intros w key s Hw Hs.
  - exists s. split; [done|apply extends_refl].
  - cbn [App.serve].
    destruct (handle_extends r w key s Hw Hs) as (s1 & Hs1 & He1).
    destruct (IH _ key s1 (handle_dense r w Hw) Hs1) as (s2 & Hs2 & He2).
    exists s2. split; [done|]. by eapply extends_trans.
Qed.

(** X8.  Sessions are never deleted and their records are append-only: a
    session present at some point of a run is present at every later point,
    with the same query and filename, with the records it had as the first
    of its records, and with a page count that has not decreased. *)
Theorem sessions_append_only (rs rs' : list App.request) (key : string)
    (s : App.session) :
  App.session_data (App.serve api rs App.initial) !! key = Some s →
  ∃ s', App.session_data (App.serve api (rs ++ rs') App.initial) !! key = Some s'
        ∧ App.all_places s `prefix_of` App.all_places s'
        ∧ App.query s' = App.query s
        ∧ App.filename s' = App.filename s
        ∧ (App.page_count s ≤ App.page_count s')%nat.
Proof.
  intros Hs. rewrite serve_app.
  apply (serve_extends rs' _ key s (serve_dense rs) Hs).
Qed.

(** X9.  [search_more] leaves alone every session other than the one its
    request names: the entry under any other id is the same after as
    before, whatever the outcome. *)
Theorem search_more_frame (data : json) (w : App.world) (key : string) :
  get data "session_id" JNull ≠ Ok (JStr key) →
  App.session_data (App.search_more api data w).2 !! key
  = App.session_data w !! key.
Proof.
  intros Hne.
  destruct (search_more_cases api data w)
    as [(r & -> & _) | [(k & s0 & r & _ & _ & _ & _ & _ & -> & _)
        | (k & s0 & r & places & token & Hid & _ & _ & _ & _ & _ & _ & _ & _ & ->)]];
    cbn [snd]; [done..|].
  cbn. apply lookup_insert_ne. congruence.
Qed.

End Runs.

Lemma search_creates_fresh_session_witness :
  App.session_data (App.serve (Sample.upstream 9 9) [Sample.start] App.initial)
    !! "session_1" = None.
Proof.
  exact (proj1 (search_creates_fresh_session (Sample.upstream 9 9)
                  [Sample.start] Sample.both_body "session_1"
                  [Sample.record "1"] true 1 "Rome_pizza_results.csv"
                  ltac:(vm_compute; reflexivity))).
Defined.

Lemma sessions_append_only_witness :
  ∃ s', App.session_data
          (App.serve (Sample.upstream 9 9)
             ([Sample.start] ++ [Sample.more; Sample.start]) App.initial)
          !! "session_0" = Some s'
        ∧ App.query s' = "pizza in Rome".
Proof.
  destruct (sessions_append_only (Sample.upstream 9 9) [Sample.start]
              [Sample.more; Sample.start] "session_0"
              {| App.query := "pizza in Rome";
                 App.all_places := [Sample.record "0"];
                 App.next_page_token := JStr "next"; App.page_count := 1;
                 App.filename := "Rome_pizza_results.csv" |}
              ltac:(vm_compute; reflexivity))
    as (s' & Hs' & _ & Hq & _).
  exists s'. split; [exact Hs' | exact Hq].
Defined.

Lemma search_more_frame_witness :
  let w := App.serve (Sample.upstream 9 9) [Sample.start; Sample.start]
             App.initial in
  App.session_data
    (App.search_more (Sample.upstream 9 9) Sample.more_body w).2 !! "session_1"
  = App.session_data w !! "session_1".
Proof.
  intros w.
  exact (search_more_frame (Sample.upstream 9 9) Sample.more_body w "session_1"
           ltac:(discriminate)).
Defined.

(** ** Names, pauses and failures in the served variant *)

Section Served.

Variable api : nat → payload → api_outcome.

Lemma made_of_pages_nonempty (sent : list payload) (count : nat)
    (records : list place_data) :
  made_of_pages api sent count records → records ≠ [].
Proof.
  intros (Hc & pages & Hlen & Hcat & Hall) ->.
  destruct pages as [|page pages]; [cbn in Hlen; lia|].
  apply Forall_cons in Hall as [[Hne _] _].
  cbn in Hcat. apply app_eq_nil in Hcat as [? _]. done.
Qed.

Lemma generate_filename_not_blank (q name : string) :
  generate_filename q = Ok name → all_space q = false.
Proof.
  intros H. destruct (all_space q) eqn:Hall; [|done].
  rewrite generate_filename_blank_raises in H by done. discriminate H.
Qed.

Lemma named_same (w w' : App.world) :
  App.session_data w' = App.session_data w → named w → named w'.
Proof. unfold named. by intros ->. Qed.

Lemma handle_named (r : App.request) (w : App.world) :
  named w → named (App.handle api r w).2.
Proof.
  intros Hw. destruct r as [data|data|key]; cbn [App.handle].
  - destruct (search_cases api data w)
      as [(r & -> & _) | [(q & r & _ & _ & -> & _)
          | (q & r & places & token & name & _ & _ & _ & _ & _ & _ & Hname & ->)]];
      cbn [snd]; [done| by eapply named_same |].
    intros key s. cbn. rewrite lookup_insert_Some.
    intros [[_ <-]|[_ Hs]]; [|by eapply Hw]. cbn.
    split; [by eapply generate_filename_not_blank|done].
  - destruct (search_more_cases api data w)
      as [(r & -> & _) | [(key & s & r & _ & _ & _ & _ & _ & -> & _)
          | (key & s & r & places & token & _ & _ & Hs & _ & _ & _ & _ & _ & _ & ->)]];
      cbn [snd]; [done| by eapply named_same |].
    intros key' s'. cbn. rewrite lookup_insert_Some.
    intros [[_ <-]|[_ Hs']]; [|by eapply Hw]. cbn. by eapply Hw.
  - by rewrite download_csv_world.
Qed.

Lemma serve_named (rs : list App.request) : named (App.serve api rs App.initial).
Proof.
  apply serve_invariant; [apply handle_named|].
  intros key s Hs. cbn in Hs. by rewrite lookup_empty in Hs.
Qed.

(** X10.  At any point of a run every stored session holds at least one
    record and a query that is not blank, and its filename is the one that
    [generate_filename] derives from its query; so the check of
    [download_csv] for a session without records never fires for a stored
    session. *)
Theorem stored_sessions_have_records (rs : list App.request) (key : string)
    (s : App.session) :
  let w := App.serve api rs App.initial in
  App.session_data w !! key = Some s →
  App.all_places s ≠ []
  ∧ all_space (App.query s) = false
  ∧ generate_filename (App.query s) = Ok (App.filename s)
  ∧ (App.download_csv key w).1 ≠ App.JsonError 400 "No data to download".
Proof.
  intros w Hs.
  destruct (serve_named rs key s Hs) as [Hblank Hname].
  assert (Hne : App.all_places s ≠ []).
  { eapply made_of_pages_nonempty.
    apply (serve_capped api rs App.initial (initial_capped api) key s Hs). }
  split_and!; [done..|].
  by rewrite (download_csv_rows w key s Hs Hne).
Qed.

Lemma continuations_snoc (l : list payload) (q : string) (token : json) :
  continuations (l ++ [build_payload q token])
  = (continuations l + (if truthy token then 1 else 0))%nat.
Proof.
  unfold continuations. rewrite filter_app, length_app. f_equal.
  unfold build_payload. destruct (truthy token).
  - rewrite filter_cons_True; [done|]. cbn. eauto.
  - rewrite filter_cons_False; [done|]. cbn. by intros [? ?].
Qed.

(** X11.  Over a whole run, one pause of 3 is taken for each upstream
    request that carries a page token, and none for the others: the pauses
    recorded are as many threes as there were continuation requests. *)
Theorem one_pause_per_continuation (rs : list App.request) :
  let w := App.serve api rs App.initial in
  App.sleeps w = replicate (continuations (App.requests w)) 3%nat.
Proof.
  cbn zeta. apply serve_invariant; [|done].
  intros r w Hw. destruct r as [data|data|key]; cbn [App.handle].
  - destruct (search_cases api data w)
      as [(r & -> & _) | [(q & r & _ & _ & -> & _)
          | (q & r & places & token & name & _ & _ & _ & _ & _ & _ & _ & ->)]];
      cbn [snd]; [done|..]; unfold stored, sent;
      cbn [App.sleeps App.requests]; rewrite continuations_snoc;
      cbn [truthy]; by rewrite Nat.add_0_r.
  - destruct (search_more_cases api data w)
      as [(r & -> & _) | [(key & s & r & _ & _ & _ & Htok & _ & -> & _)
          | (key & s & r & places & token & _ & _ & _ & Htok & _ & _ & _ & _ & _ & ->)]];
      cbn [snd]; [done|..]; unfold stored, sent, paused;
      cbn [App.sleeps App.requests]; rewrite continuations_snoc, Htok, Hw;
      by rewrite Nat.add_1_r, replicate_S_end.
  - by rewrite download_csv_world.
Qed.


(** X13.  When the upstream request fails, or the extraction from its answer
    raises, [search] and [search_more] answer with status 500 carrying that
    exception, and the session store is as before: no session is created,
    and the session asked about keeps its records, token and page count. *)
Theorem upstream_failure_keeps_store (w : App.world) (e : exn) :
  (∀ data q,
     App.query_of data = Ok q → q ≠ "" →
     page_of (api (length (App.requests w)) (build_payload q JNull)) = Raise e →
     App.search api data w
     = (App.ServerError e, sent (build_payload q JNull) w))
  ∧ (∀ data key s,
     get data "session_id" JNull = Ok (JStr key) → key ≠ "" →
     App.session_data w !! key = Some s →
     truthy (App.next_page_token s) = true →
     (App.page_count s < 3)%nat →
     page_of (api (length (App.requests w))
                (build_payload (App.query s) (App.next_page_token s))) = Raise e →
     App.search_more api data w
     = (App.ServerError e,
        sent (build_payload (App.query s) (App.next_page_token s)) (paused w))).
Proof.
  split.
  - intros data q Hq Hne Hpage. run_handler. rewrite Hq. cbn.
    destruct q as [|c q]; [done|]. cbn. unfold App.search_places.
    destruct (api _ _) as [r|e']; cbn in Hpage.
    + by rewrite Hpage.
    + by injection Hpage as <-.
  - intros data key s Hid Hkey Hs Htok Hpc Hpage. run_handler.
    rewrite Hid. cbn. destruct key as [|c key]; [done|]. cbn.
    rewrite Hs. cbn. rewrite Htok. cbn.
    rewrite bool_decide_eq_false_2 by lia.
    unfold App.sleep, modify, App.search_places. cbn.
    destruct (api _ _) as [r|e']; cbn in Hpage.
    + by rewrite Hpage.
    + by injection Hpage as <-.
Qed.

Lemma search_more_proceeds (w : App.world) (data : json) (key : string)
    (s : App.session) :
  get data "session_id" JNull = Ok (JStr key) → key ≠ "" →
  App.session_data w !! key = Some s →
  truthy (App.next_page_token s) = true →
  (App.page_count s < 3)%nat →
  App.requests (App.search_more api data w).2
  = App.requests w ++ [build_payload (App.query s) (App.next_page_token s)].
Proof.
  intros Hid Hkey Hs Htok Hpc. run_handler.
  rewrite Hid. cbn. destruct key as [|c key]; [done|]. cbn.
  rewrite Hs. cbn. rewrite Htok. cbn.
  rewrite bool_decide_eq_false_2 by lia.
  unfold App.sleep, modify, App.search_places. cbn.
  destruct (api _ _) as [r|e']; cbn; [|done].
  destruct (extract_place_data r) as [places|e'] eqn:Hex; cbn; [|done].
  destruct places as [|pl places]; cbn; [done|].
  destruct (extract_nonempty_object r (pl :: places) Hex) as [d ->]; [done|].
  done.
Qed.

(** X14.  The [has_more] flag of a successful [search_more] tells what the
    next [search_more] with the same request will do: when it is false the
    next one is refused with status 400 and nothing is sent or changed; when
    it is true the next one sends one continuation request upstream, with
    the session's query and the token just stored. *)
Theorem has_more_predicts_next (w w' : App.world) (data : json)
    (places : list place_data) (has_more : bool) (total pages : nat) :
  App.search_more api data w = (App.MoreResult places has_more total pages, w') →
  if has_more
  then ∃ key s', get data "session_id" JNull = Ok (JStr key)
         ∧ App.session_data w' !! key = Some s'
         ∧ App.requests (App.search_more api data w').2
           = App.requests w'
             ++ [{| textQuery := App.query s';
                    pageToken := Some (App.next_page_token s') |}]
  else ∃ error, App.search_more api data w' = (App.JsonError 400 error, w').
Proof.
  intros Hrun.
  destruct (search_more_cases api data w)
    as [(r & Heq & Herr) | [(key & s & r & _ & _ & _ & _ & _ & Heq & Herr)
        | (key & s & r & pl & token & Hid & Hkey & Hs & Htok & Hpc & _ & _ & _
           & _ & Heq)]];
    rewrite Heq in Hrun;
    [injection Hrun as -> _; destruct Herr..|].
  injection Hrun as <- <- <- <- <-.
  set (w' := stored key (advanced pl token s) _).
  assert (Hs' : App.session_data w' !! key = Some (advanced pl token s))
    by apply lookup_insert_eq.
  destruct (truthy token) eqn:Htoken; cbn [andb].
  - case_bool_decide as Hlt.
    + exists key, (advanced pl token s). split; [done|]. split; [done|].
      rewrite (search_more_proceeds w' data key (advanced pl token s));
        [|done..].
      cbn. unfold build_payload. by rewrite Htoken.
    + eexists. eapply search_more_page_limit; [done..|cbn; lia].
  - eexists. by eapply search_more_no_token.
Qed.

(** X15.  The [has_more] flag of a successful [search] tells what the first
    [search_more] for the new session will do: when it is false that
    request is refused with "No more results available" and nothing is sent
    or changed; when it is true it sends one continuation request
    upstream. *)
Theorem has_more_predicts_first (w w' : App.world) (data data' : json)
    (session_id : string) (places : list place_data) (has_more : bool)
    (total : nat) (name : string) :
  App.search api data w
  = (App.SearchResult session_id places has_more total name, w') →
  get data' "session_id" JNull = Ok (JStr session_id) →
  if has_more
  then ∃ p, App.requests (App.search_more api data' w').2
            = App.requests w' ++ [p]
            ∧ is_Some (pageToken p)
  else App.search_more api data' w'
       = (App.JsonError 400 "No more results available", w').
Proof.
  intros Hrun Hid.
  destruct (search_cases api data w)
    as [(r & Heq & Herr) | [(q & r & _ & _ & Heq & Herr)
        | (q & r & pl & token & name' & _ & _ & _ & _ & _ & _ & _ & Heq)]];
    rewrite Heq in Hrun;
    [injection Hrun as -> _; destruct Herr..|].
  injection Hrun as <- <- <- <- <- <-.
  set (s := {| App.query := q; App.all_places := pl;
               App.next_page_token := token; App.page_count := 1;
               App.filename := name' |}).
  set (w' := stored _ s _).
  assert (Hs' : App.session_data w' !! session_key (size (App.session_data w))
                = Some s) by apply lookup_insert_eq.
  assert (Hkey : session_key (size (App.session_data w)) ≠ "") by done.
  destruct (truthy token) eqn:Htoken.
  - eexists. split.
    + eapply search_more_proceeds; [done..|cbn; lia].
    + cbn. rewrite Htoken. eauto.
  - by eapply search_more_no_token.
Qed.

End Served.

(** ** The interactive variant: requests, files and prompts *)

Section Interactive.

Variable api : nat → payload → api_outcome.
Variable writable : string → bool.

Lemma save_to_csv_logs (places_data : list place_data) (filename : string)
    (append : bool) (w : Cli.world) :
  let w' := (Cli.save_to_csv writable places_data filename append w).2 in
  Cli.requests w' = Cli.requests w ∧ Cli.sleeps w' = Cli.sleeps w
  ∧ Cli.stdin w' = Cli.stdin w.
Proof.
  unfold Cli.save_to_csv, mbind, M_bind, mret, M_ret, lift, gets, modify. cbn.
  destruct (is_nil places_data); [done|].
  by destruct (negb (writable filename)).
Qed.

Lemma ask_logs (w : Cli.world) :
  let w' := (Cli.ask_user_for_more_results w).2 in
  Cli.requests w' = Cli.requests w ∧ Cli.sleeps w' = Cli.sleeps w.
Proof.
  unfold Cli.ask_user_for_more_results.
  by destruct (Cli.ask_lines (Cli.stdin w)).
Qed.

Lemma query_logs (w : Cli.world) :
  let w' := (Cli.get_user_search_query w).2 in
  Cli.requests w' = Cli.requests w ∧ Cli.sleeps w' = Cli.sleeps w.
Proof.
  unfold Cli.get_user_search_query.
  by destruct (Cli.query_lines (Cli.stdin w)).
Qed.

Lemma pagination_idle (steps : nat) (q filename : string) (l : Cli.locals)
    (w : Cli.world) :
  truthy (Cli.next_page_token l) = false →
  (Cli.pagination api writable steps q filename l w).2 = w.
Proof. intros Htok. destruct steps; [done|]. cbn. by rewrite Htok. Qed.

Ltac count_logs :=
  cbn [Cli.pagination]; unfold mret, M_ret;
  cbn [fst snd Cli.requests Cli.sleeps Cli.page_count] in *;
  rewrite ?length_app in *; cbn [length] in *;
  unfold Cli.max_pages in *; lia.

Lemma pagination_logs (steps : nat) (q filename : string) :
  ∀ (l : Cli.locals) (w : Cli.world),
    (Cli.page_count l ≤ Cli.max_pages)%nat →
    let w' := (Cli.pagination api writable steps q filename l w).2 in
    (length (Cli.requests w')
     ≤ length (Cli.requests w) + (Cli.max_pages - Cli.page_count l))%nat
    ∧ (length (Cli.sleeps w')
       ≤ length (Cli.sleeps w) + (Cli.max_pages - Cli.page_count l))%nat.
Proof.
  induction steps as [|steps IH]; intros l w Hle; cbn zeta; [count_logs|].
  cbn [Cli.pagination].
  destruct (truthy (Cli.next_page_token l)) eqn:Htok; cbn [andb];
    [|count_logs].
  case_bool_decide as Hpc; [|count_logs].
  unfold mbind, M_bind.
  pose proof (ask_logs w) as [Hr1 Hs1].
  destruct (Cli.ask_user_for_more_results w) as [[more|e] w1];
    cbn [snd] in Hr1, Hs1;
    apply (f_equal length) in Hr1; apply (f_equal length) in Hs1;
    [|count_logs].
  destruct more; [|count_logs].
  unfold Cli.sleep, modify, Cli.search_places.
  cbn [fst snd Cli.requests Cli.sleeps].
  destruct (api _ _) as [r|e]; [|count_logs].
  unfold lift.
  destruct (extract_place_data r) as [places|e]; [|count_logs].
  destruct places as [|pl places]; cbn [is_nil negb].
  - rewrite pagination_idle by done. count_logs.
  - match goal with
    | |- context [Cli.save_to_csv ?wr ?pd ?fn ?ap ?w0] =>
        pose proof (save_to_csv_logs pd fn ap w0) as (Hr2 & Hs2 & _);
        destruct (Cli.save_to_csv wr pd fn ap w0) as [[[]|e] w2]
    end; cbn [snd Cli.requests Cli.sleeps] in Hr2, Hs2;
      apply (f_equal length) in Hr2; apply (f_equal length) in Hs2;
      [|count_logs].
    destruct (get r "nextPageToken" JNull) as [token|e]; [|count_logs].
    match goal with
    | |- context [Cli.pagination _ _ _ _ _ ?l1 ?w0] =>
        pose proof (IH l1 w0) as Hrec
    end.
    cbn zeta in Hrec. destruct Hrec as [Hr3 Hs3]; count_logs.
Qed.

(** X16.  One run of [main] sends at most three requests upstream and takes
    at most two pauses, however it ends. *)
Theorem main_sends_at_most_three (w : Cli.world) :
  let w' := (Cli.main api writable w).2 in
  (length (Cli.requests w') ≤ length (Cli.requests w) + 3)%nat
  ∧ (length (Cli.sleeps w') ≤ length (Cli.sleeps w) + 2)%nat.
Proof.
  cbn zeta. unfold Cli.main, mbind, M_bind.
  pose proof (query_logs w) as [Hr1 Hs1].
  destruct (Cli.get_user_search_query w) as [[q|e0] w1];
    cbn [snd] in Hr1, Hs1;
    apply (f_equal length) in Hr1; apply (f_equal length) in Hs1;
    [|count_logs].
  unfold lift.
  destruct (generate_filename q) as [filename|e0]; [|count_logs].
  unfold Cli.search_places.
  destruct (api _ _) as [r|e0]; [|count_logs].
  destruct (extract_place_data r) as [places|e0]; [|count_logs].
  destruct places as [|pl places]; cbn [is_nil]; [count_logs|].
  match goal with
  | |- context [Cli.save_to_csv ?wr ?pd ?fn ?ap ?w0] =>
      pose proof (save_to_csv_logs pd fn ap w0) as (Hr2 & Hs2 & _);
      destruct (Cli.save_to_csv wr pd fn ap w0) as [[[]|e0] w2]
  end; cbn [snd Cli.requests Cli.sleeps] in Hr2, Hs2;
    apply (f_equal length) in Hr2; apply (f_equal length) in Hs2;
    [|count_logs].
  destruct (get r "nextPageToken" JNull) as [token|e0]; [|count_logs].
  match goal with
  | |- context [Cli.pagination ?a ?wr ?st ?qq ?fn ?l0 ?w0] =>
      pose proof (pagination_logs st qq fn l0 w0) as Hloop;
      destruct (Cli.pagination a wr st qq fn l0 w0) as [[[l|]|e0] w3]
  end; cbn zeta in Hloop; (destruct Hloop as [Hr3 Hs3]; [count_logs|]);
    count_logs.
Qed.

(** X17.  [save_to_csv] touches no file but the one it is given, and when
    that file cannot be opened it changes nothing at all and, if there are
    records to write, ends the process with exit status 1. *)
Theorem save_to_csv_frame (places_data : list place_data) (filename : string)
    (append : bool) (w : Cli.world) :
  (∀ other, other ≠ filename →
     Cli.files (Cli.save_to_csv writable places_data filename append w).2
       !! other = Cli.files w !! other)
  ∧ (writable filename = false →
     (Cli.save_to_csv writable places_data filename append w).2 = w
     ∧ (places_data ≠ [] →
        (Cli.save_to_csv writable places_data filename append w).1
        = Raise (SystemExit 1))).
Proof.
  unfold Cli.save_to_csv, mbind, M_bind, mret, M_ret, lift, gets, modify.
  destruct places_data as [|p ps]; cbn -[rows_of header_row].
  - split; [done|]. intros _. split; [done|]. by intros [].
  - destruct (writable filename); cbn -[rows_of header_row].
    + split; [|done]. intros other Hne. by rewrite lookup_insert_ne.
    + done.
Qed.

End Interactive.

Lemma ask_lines_answer (lines : list string) :
  match Cli.ask_lines lines with
  | (Ok b, rest) =>
      ∃ skipped line, lines = skipped ++ line :: rest
        ∧ Forall (λ l, answer l = None) skipped ∧ answer line = Some b
  | (Raise e, rest) =>
      e = EOFError ∧ rest = [] ∧ Forall (λ l, answer l = None) lines
  end.
Proof.
  induction lines as [|line lines IH]; cbn [Cli.ask_lines]; [done|].
  destruct (bool_decide (upper (strip line) ∈ ["Y"; "YES"])) eqn:Hy.
  - exists [], line. split_and!; [done|done|]. unfold answer. by rewrite Hy.
  - destruct (bool_decide (upper (strip line) ∈ ["N"; "NO"])) eqn:Hn.
    + exists [], line. split_and!; [done|done|]. unfold answer. by rewrite Hy, Hn.
    + assert (Hnone : answer line = None) by (unfold answer; by rewrite Hy, Hn).
      destruct (Cli.ask_lines lines) as [[b|e] rest].
      * destruct IH as (skipped & line' & -> & Hsk & Hans).
        exists (line :: skipped), line'. split_and!; [done| |done].
        by constructor.
      * destruct IH as (-> & -> & Hall). split_and!; [done|done|].
        by constructor.
Qed.

(** X18.  The "more results" prompt passes over every line that is not an
    answer and returns what the first answer says, leaving the lines after
    it unread; it ends with [EOFError] exactly when no line left is an
    answer. *)
Theorem ask_lines_first_answer (lines : list string) :
  (∀ b rest,
     Cli.ask_lines lines = (Ok b, rest)
     ↔ ∃ skipped line, lines = skipped ++ line :: rest
         ∧ Forall (λ l, answer l = None) skipped ∧ answer line = Some b)
  ∧ (Cli.ask_lines lines = (Raise EOFError, [])
     ↔ Forall (λ l, answer l = None) lines).
Proof.
  pose proof (ask_lines_answer lines) as H. split.
  - intros b rest. split.
    + intros Heq. by rewrite Heq in H.
    + intros (skipped & line & -> & Hsk & Hans). clear H.
      induction Hsk as [|l skipped Hl Hsk IH]; cbn [app Cli.ask_lines].
      * unfold answer in Hans.
        destruct (bool_decide (upper (strip line) ∈ ["Y"; "YES"])).
        { by injection Hans as <-. }
        destruct (bool_decide (upper (strip line) ∈ ["N"; "NO"])); [|done].
        by injection Hans as <-.
      * unfold answer in Hl.
        destruct (bool_decide (upper (strip l) ∈ ["Y"; "YES"])); [done|].
        destruct (bool_decide (upper (strip l) ∈ ["N"; "NO"])); [done|].
        exact IH.
  - split.
    + intros Heq. rewrite Heq in H. by destruct H as (_ & _ & H).
    + intros Hall. clear H.
      induction Hall as [|l lines Hl Hall IH]; cbn [Cli.ask_lines]; [done|].
      unfold answer in Hl.
      destruct (bool_decide (upper (strip l) ∈ ["Y"; "YES"])); [done|].
      destruct (bool_decide (upper (strip l) ∈ ["N"; "NO"])); [done|].
      exact IH.
Qed.

(** ** The query handed to the filename derivation *)


Lemma lstrip_empty (s : string) : lstrip s = "" → all_space s = true.
Proof.
  induction s as [|c s IH]; [done|]. cbn [lstrip all_space].
  destruct (isspace c); [exact IH|discriminate].
Qed.

Lemma all_space_lstrip_empty (s : string) : all_space s = true → lstrip s = "".
Proof.
  induction s as [|c s IH]; [done|]. cbn [lstrip all_space]. intros H.
  apply andb_true_iff in H as [Hc H]. rewrite Hc. by apply IH.
Qed.

Lemma strip_blank (s : string) : strip s = "" ↔ all_space s = true.
Proof.
  unfold strip. split.
  - intros H. by apply lstrip_empty, all_space_lstrip, rstrip_empty.
  - intros H. by rewrite all_space_lstrip_empty.
Qed.

Lemma query_lines_result (lines : list string) :
  match Cli.query_lines lines with
  | (Ok q, rest) =>
      ∃ skipped line, lines = skipped ++ line :: rest
        ∧ Forall (λ l, all_space l = true) skipped
        ∧ all_space line = false ∧ q = strip line
  | (Raise e, rest) =>
      e = EOFError ∧ rest = [] ∧ Forall (λ l, all_space l = true) lines
  end.
Proof.
  induction lines as [|line lines IH]; cbn [Cli.query_lines]; [done|].
  destruct (strip line) as [|c s] eqn:Hs; cbn [is_empty negb].
  - apply strip_blank in Hs.
    destruct (Cli.query_lines lines) as [[q|e] rest].
    + destruct IH as (skipped & line' & -> & Hsk & Hline & ->).
      exists (line :: skipped), line'. split_and!; [done| |done|done].
      by constructor.
    + destruct IH as (-> & -> & Hall). split_and!; [done|done|].
      by constructor.
  - exists [], line. split_and!; [done|done| |done].
    destruct (all_space line) eqn:Hall; [|done].
    apply strip_blank in Hall. congruence.
Qed.


(** X20.  [get_user_search_query] passes over every line that is blank and
    returns the first line that is not, stripped, leaving the lines after
    it unread; it ends with [EOFError] exactly when every line left is
    blank. *)
Theorem query_lines_first_nonblank (lines : list string) :
  (∀ q rest,
     Cli.query_lines lines = (Ok q, rest)
     ↔ ∃ skipped line, lines = skipped ++ line :: rest
         ∧ Forall (λ l, all_space l = true) skipped
         ∧ all_space line = false ∧ q = strip line)
  ∧ (Cli.query_lines lines = (Raise EOFError, [])
     ↔ Forall (λ l, all_space l = true) lines).
Proof.
  pose proof (query_lines_result lines) as H. split.
  - intros q rest. split.
    + intros Heq. by rewrite Heq in H.
    + intros (skipped & line & -> & Hsk & Hline & ->). clear H.
      induction Hsk as [|l skipped Hl Hsk IH]; cbn [app Cli.query_lines].
      * destruct (strip line) eqn:Hs; [|done].
        apply strip_blank in Hs. congruence.
      * apply strip_blank in Hl. by rewrite Hl.
  - split.
    + intros Heq. rewrite Heq in H. by destruct H as (_ & _ & H).
    + intros Hall. clear H.
      induction Hall as [|l lines Hl Hall IH]; cbn [Cli.query_lines]; [done|].
      apply strip_blank in Hl. by rewrite Hl.
Qed.

(** ** Instances of the further properties *)

Lemma stored_sessions_have_records_witness :
  ∃ s, App.session_data
         (App.serve (Sample.upstream 9 9) [Sample.start; Sample.more] App.initial)
         !! "session_0" = Some s
       ∧ App.all_places s ≠ []
       ∧ generate_filename (App.query s) = Ok (App.filename s).
Proof.
  assert (Hs : ∃ s, App.session_data
         (App.serve (Sample.upstream 9 9) [Sample.start; Sample.more] App.initial)
         !! "session_0" = Some s).
  { vm_compute. eexists. reflexivity. }
  destruct Hs as [s Hs]. exists s. split; [exact Hs|].
  destruct (stored_sessions_have_records (Sample.upstream 9 9)
              [Sample.start; Sample.more] "session_0" s Hs)
    as (Hne & _ & Hname & _).
  split; [exact Hne | exact Hname].
Defined.


Lemma upstream_failure_keeps_store_witness :
  App.session_data
    (App.search unreachable_upstream Sample.both_body two_page_world).2
  = App.session_data two_page_world
  ∧ App.session_data
      (App.search_more unreachable_upstream Sample.both_body two_page_world).2
    = App.session_data two_page_world.
Proof.
  destruct (upstream_failure_keeps_store unreachable_upstream two_page_world
              (RequestFailed "timeout")) as [Hsearch Hmore].
  split.
  - by rewrite (Hsearch Sample.both_body "pizza in Rome" eq_refl
                  ltac:(discriminate) eq_refl).
  - by rewrite (Hmore Sample.both_body "session_0" two_page_session eq_refl
                  ltac:(discriminate) (lookup_insert_eq _ _ _) eq_refl
                  ltac:(cbn; lia) eq_refl).
Defined.

Lemma has_more_predicts_next_witness :
  ∃ error,
    (App.search_more (Sample.upstream 9 9) Sample.more_body
       (App.search_more (Sample.upstream 9 9) Sample.more_body
          two_page_world).2).1
    = App.JsonError 400 error.
Proof.
  assert (Hrun : App.search_more (Sample.upstream 9 9) Sample.more_body
                   two_page_world
                 = (App.MoreResult [Sample.record "0"] false 3 3,
                    (App.search_more (Sample.upstream 9 9) Sample.more_body
                       two_page_world).2)).
  { vm_compute. reflexivity. }
  destruct (has_more_predicts_next (Sample.upstream 9 9) _ _ _ _ _ _ _ Hrun)
    as [error Hnext].
  exists error. by rewrite Hnext.
Defined.

Lemma has_more_predicts_first_witness :
  (App.search_more (Sample.upstream 0 9) Sample.more_body
     (App.search (Sample.upstream 0 9) Sample.both_body App.initial).2).1
  = App.JsonError 400 "No more results available".
Proof.
  assert (Hrun : App.search (Sample.upstream 0 9) Sample.both_body App.initial
                 = (App.SearchResult "session_0" [Sample.record "0"] false 1
                      "Rome_pizza_results.csv",
                    (App.search (Sample.upstream 0 9) Sample.both_body
                       App.initial).2)).
  { vm_compute. reflexivity. }
  by rewrite (has_more_predicts_first (Sample.upstream 0 9) _ _ _
                Sample.more_body _ _ _ _ _ Hrun eq_refl).
Defined.

Lemma save_to_csv_frame_witness :
  let w := Cli.set_files {["other.csv" := [header_row]]} Sample.empty_disk in
  Cli.files (Cli.save_to_csv (λ _, true) [Sample.record "a"] "out.csv" false w).2
    !! "other.csv" = Some [header_row]
  ∧ (Cli.save_to_csv (λ _, false) [Sample.record "a"] "out.csv" false w).1
    = Raise (SystemExit 1).
Proof.
  intros w. split.
  - rewrite (proj1 (save_to_csv_frame (λ _, true) [Sample.record "a"] "out.csv"
                      false w) "other.csv" ltac:(discriminate)).
    apply lookup_singleton_eq.
  - exact (proj2 (proj2 (save_to_csv_frame (λ _, false) [Sample.record "a"]
                           "out.csv" false w) eq_refl) ltac:(discriminate)).
Defined.

